(** * Witticism: speech segmentation and hot-key tracking

    A shallow embedding of [witticism/core/audio_capture.py] and
    [witticism/core/hotkey_manager.py].

    - The key listener is a state machine over [HotkeyManager]: each handler
      takes the manager and a key and returns the new manager together with
      the callbacks it invoked, in order.
    - The capture loop is a fold of [capture_iteration] over the iterations
      of the [while] loop.  What the loop reads from the outside world in one
      iteration (the chunk, the verdict of the voice-activity detector and
      the reading of the wall clock) is the input of that iteration.
    - Callbacks are optional in the source ([None] or a callable); a field of
      type [bool] records whether one is installed, and an installed callback
      is modelled by the notification it receives.  Callbacks and the calls
      into the audio device are taken to return normally.
    - Durations and clock readings are floating-point seconds in the source
      and rationals here; sample counts and frame counters are integers. *)

From Stdlib Require Import ZArith QArith Lia Lqa Ascii Sorted.
From stdpp Require Import base decidable countable gmap strings list.

#[local] Open Scope Z_scope.

(** ** Keys of the raw input source (pynput) *)

Module Keyboard.

(** Members of [keyboard.Key] (the named, non-character keys). *)
Inductive NamedKey :=
  | alt | alt_l | alt_r | alt_gr
  | ctrl | ctrl_l | ctrl_r
  | shift | shift_l | shift_r
  | cmd | space | enter | tab | esc | backspace
  | f1 | f2 | f3 | f4 | f5 | f6 | f7 | f8 | f9 | f10 | f11 | f12.

(** A key event carries either a [keyboard.Key] member or a
    [keyboard.KeyCode] built from a character. *)
Inductive Key :=
  | Named (k : NamedKey)
  | KeyCode (char : string).

#[global] Instance NamedKey_eq_dec : EqDecision NamedKey.
Proof. solve_decision. Defined.

#[global] Instance Key_eq_dec : EqDecision Key.
Proof. solve_decision. Defined.

Definition NamedKey_index (k : NamedKey) : nat :=
  match k with
  | alt => 0 | alt_l => 1 | alt_r => 2 | alt_gr => 3
  | ctrl => 4 | ctrl_l => 5 | ctrl_r => 6
  | shift => 7 | shift_l => 8 | shift_r => 9
  | cmd => 10 | space => 11 | enter => 12 | tab => 13 | esc => 14
  | backspace => 15
  | f1 => 16 | f2 => 17 | f3 => 18 | f4 => 19 | f5 => 20 | f6 => 21
  | f7 => 22 | f8 => 23 | f9 => 24 | f10 => 25 | f11 => 26 | f12 => 27
  end%nat.

Definition NamedKey_all : list NamedKey :=
  [alt; alt_l; alt_r; alt_gr; ctrl; ctrl_l; ctrl_r; shift; shift_l; shift_r;
   cmd; space; enter; tab; esc; backspace;
   f1; f2; f3; f4; f5; f6; f7; f8; f9; f10; f11; f12].

Definition NamedKey_of_index (n : nat) : option NamedKey := NamedKey_all !! n.

#[global] Instance NamedKey_countable : Countable NamedKey.
Proof.
  refine (inj_countable NamedKey_index NamedKey_of_index _).
  intros k. destruct k; reflexivity.
Defined.

Definition Key_encode (k : Key) : NamedKey + string :=
  match k with Named n => inl n | KeyCode c => inr c end.

Definition Key_decode (x : NamedKey + string) : Key :=
  match x with inl n => Named n | inr c => KeyCode c end.

#[global] Instance Key_countable : Countable Key.
Proof.
  refine (inj_countable' Key_encode Key_decode _).
  intros k. destruct k; reflexivity.
Defined.

(** [keyboard.KeyCode.from_char]. *)
Definition from_char (c : string) : Key := KeyCode c.

(** [isinstance(key, keyboard.Key)]. *)
Definition is_named (k : Key) : bool :=
  match k with Named _ => true | KeyCode _ => false end.

End Keyboard.

Import Keyboard.

(** ** hotkey_manager.py *)

(** The callbacks the key listener can invoke. *)
Inductive Signal :=
  | PushToTalkStart
  | PushToTalkStop
  | Toggle.

#[global] Instance Signal_eq_dec : EqDecision Signal.
Proof. solve_decision. Defined.

(** The fields of [HotkeyManager] the handlers read or write. *)
Record HotkeyManager := mkHotkeyManager {
  current_keys : gset Key;
  on_push_to_talk_start : bool;
  on_push_to_talk_stop : bool;
  on_toggle : bool;
  ptt_key : Key;
  ptt_active : bool
}.

(** The key [HotkeyManager.__init__] binds push-to-talk to. *)
Definition default_ptt_key : Key := Named f9.

(** [HotkeyManager.__init__]. *)
Definition HotkeyManager_init : HotkeyManager :=
  {| current_keys := ∅;
     on_push_to_talk_start := false;
     on_push_to_talk_stop := false;
     on_toggle := false;
     ptt_key := default_ptt_key;
     ptt_active := false |}.

(** [HotkeyManager.set_callbacks]. *)
Definition set_callbacks (self : HotkeyManager) (start stop toggle : bool)
  : HotkeyManager :=
  {| current_keys := current_keys self;
     on_push_to_talk_start := start;
     on_push_to_talk_stop := stop;
     on_toggle := toggle;
     ptt_key := ptt_key self;
     ptt_active := ptt_active self |}.

(** [k in self.current_keys]. *)
Definition held (self : HotkeyManager) (k : Key) : bool :=
  bool_decide (k ∈ current_keys self).

(** [key in [a, b, c]] on Python lists. *)
Definition key_in (k : Key) (l : list Key) : bool := bool_decide (k ∈ l).

(** [any(k in self.current_keys for k in l)]. *)
Definition any_held (self : HotkeyManager) (l : list Key) : bool :=
  existsb (held self) l.

Definition ctrl_variants : list Key := [Named ctrl; Named ctrl_l; Named ctrl_r].
Definition alt_variants : list Key := [Named alt; Named alt_l; Named alt_r].

(** [HotkeyManager._is_combo_pressed]: the loop returns [False] at the first
    key of the combination that is not held. *)
Fixpoint _is_combo_pressed (self : HotkeyManager) (keys : list Key) : bool :=
  match keys with
  | [] => true
  | key :: rest =>
      if is_named key then
        if key_in key ctrl_variants then
          if negb (any_held self ctrl_variants) then false
          else _is_combo_pressed self rest
        else if key_in key alt_variants then
          if negb (any_held self alt_variants) then false
          else _is_combo_pressed self rest
        else if negb (held self key) then false
        else _is_combo_pressed self rest
      else if negb (held self key) then false
      else _is_combo_pressed self rest
  end.

(** The combination checked on every press: Ctrl+Alt+M. *)
Definition toggle_combo : list Key :=
  [Named ctrl_l; Named alt_l; from_char "m"].

Definition fire (installed : bool) (s : Signal) : list Signal :=
  if installed then [s] else [].

Definition set_ptt_active (self : HotkeyManager) (b : bool) : HotkeyManager :=
  {| current_keys := current_keys self;
     on_push_to_talk_start := on_push_to_talk_start self;
     on_push_to_talk_stop := on_push_to_talk_stop self;
     on_toggle := on_toggle self;
     ptt_key := ptt_key self;
     ptt_active := b |}.

Definition set_current_keys (self : HotkeyManager) (s : gset Key)
  : HotkeyManager :=
  {| current_keys := s;
     on_push_to_talk_start := on_push_to_talk_start self;
     on_push_to_talk_stop := on_push_to_talk_stop self;
     on_toggle := on_toggle self;
     ptt_key := ptt_key self;
     ptt_active := ptt_active self |}.

(** [HotkeyManager._on_key_press]. *)
Definition _on_key_press (self : HotkeyManager) (key : Key)
  : HotkeyManager * list Signal :=
  let '(self1, out1) :=
    if bool_decide (key = ptt_key self) && negb (ptt_active self)
    then (set_ptt_active self true,
          fire (on_push_to_talk_start self) PushToTalkStart)
    else (self, []) in
  let self2 := set_current_keys self1 ({[ key ]} ∪ current_keys self1) in
  let out2 :=
    if _is_combo_pressed self2 toggle_combo
    then fire (on_toggle self2) Toggle
    else [] in
  (self2, out1 ++ out2).

(** [HotkeyManager._on_key_release]. *)
Definition _on_key_release (self : HotkeyManager) (key : Key)
  : HotkeyManager * list Signal :=
  let '(self1, out1) :=
    if bool_decide (key = ptt_key self) && ptt_active self
    then (set_ptt_active self false,
          fire (on_push_to_talk_stop self) PushToTalkStop)
    else (self, []) in
  (set_current_keys self1 (current_keys self1 ∖ {[ key ]}), out1).

(** [HotkeyManager.change_ptt_key]. *)
Definition change_ptt_key (self : HotkeyManager) (key : Key) : HotkeyManager :=
  {| current_keys := current_keys self;
     on_push_to_talk_start := on_push_to_talk_start self;
     on_push_to_talk_stop := on_push_to_talk_stop self;
     on_toggle := on_toggle self;
     ptt_key := key;
     ptt_active := ptt_active self |}.

(** The listener delivers a stream of press and release events. *)
Inductive KeyEvent :=
  | Press (key : Key)
  | Release (key : Key).

Definition handle (self : HotkeyManager) (e : KeyEvent)
  : HotkeyManager * list Signal :=
  match e with
  | Press key => _on_key_press self key
  | Release key => _on_key_release self key
  end.

(** The listener thread: the handlers run one after the other, in the order
    of the events. *)
Fixpoint listen (self : HotkeyManager) (events : list KeyEvent)
  : HotkeyManager * list Signal :=
  match events with
  | [] => (self, [])
  | e :: rest =>
      let '(self1, out1) := handle self e in
      let '(self2, out2) := listen self1 rest in
      (self2, out1 ++ out2)
  end.

Definition count_signal (s : Signal) (out : list Signal) : nat :=
  length (filter (λ x, x = s) out).

(** A tracker with the three callbacks installed, and the same tracker
    once left control, left alt and the character key went down. *)
Definition tracker : HotkeyManager :=
  set_callbacks HotkeyManager_init true true true.

Definition combo_held : HotkeyManager :=
  (listen tracker
     [Press (Named ctrl_l); Press (Named alt_l); Press (from_char "m")]).1.

(** ** audio_capture.py *)

#[local] Open Scope Q_scope.

(** A frame is a block of signed 16-bit samples ([np.int16]). *)
Definition Frame := list Z.

(** What the capture loop hands to the callbacks, in the order of the
    calls: [on_speech_start()], [callback(speech_audio)], [on_speech_end()]. *)
Inductive Notification :=
  | SpeechStart
  | Segment (speech_audio : Frame)
  | SpeechEnd.

#[global] Instance Notification_eq_dec : EqDecision Notification.
Proof. solve_decision. Defined.

(** The constructor arguments of [AudioCapture].  Durations are seconds; the
    source holds them as floating-point numbers, the model as rationals. *)
Record Settings := mkSettings {
  sample_rate : Z;
  channels : Z;
  chunk_duration_ms : Z;
  vad_aggressiveness : Z;
  min_speech_duration : Q;
  max_silence_duration : Q
}.

(** The defaults of [AudioCapture.__init__]. *)
Definition default_settings : Settings :=
  {| sample_rate := 16000;
     channels := 1;
     chunk_duration_ms := 30;
     vad_aggressiveness := 2;
     min_speech_duration := 5 # 10;
     max_silence_duration := 1 |}.

(** The mutable fields of [AudioCapture].  [stream] and [capture_thread]
    are [None] or an object in the source; the model keeps which. *)
Record AudioCapture := mkAudioCapture {
  settings : Settings;
  chunk_size : Z;
  stream : bool;
  recording_buffer : list Frame;
  is_recording : bool;
  stop_event : bool;
  capture_thread : bool;
  on_speech_start : bool;
  on_speech_end : bool
}.

(** [AudioCapture.__init__]; [int(...)] truncates towards zero. *)
Definition AudioCapture_init (cfg : Settings) : AudioCapture :=
  {| settings := cfg;
     chunk_size := (sample_rate cfg * chunk_duration_ms cfg ÷ 1000)%Z;
     stream := false;
     recording_buffer := [];
     is_recording := false;
     stop_event := false;
     capture_thread := false;
     on_speech_start := false;
     on_speech_end := false |}.

(** [AudioCapture.set_vad_callbacks]. *)
Definition set_vad_callbacks (self : AudioCapture) (start stop : bool)
  : AudioCapture :=
  {| settings := settings self;
     chunk_size := chunk_size self;
     stream := stream self;
     recording_buffer := recording_buffer self;
     is_recording := is_recording self;
     stop_event := stop_event self;
     capture_thread := capture_thread self;
     on_speech_start := start;
     on_speech_end := stop |}.

(** [AudioCapture.start_recording].  [opened] tells whether
    [self.audio.open] succeeds; when it raises, the exception is logged and
    raised again ([None]).  The capture thread it starts is [_capture_loop]
    below. *)
Definition start_recording (self : AudioCapture) (opened : bool)
  : option AudioCapture :=
  if is_recording self then Some self
  else if opened then
    Some {| settings := settings self;
            chunk_size := chunk_size self;
            stream := true;
            recording_buffer := [];
            is_recording := true;
            stop_event := false;
            capture_thread := true;
            on_speech_start := on_speech_start self;
            on_speech_end := on_speech_end self |}
  else None.

(** [AudioCapture.stop_recording]: the new state and the returned array. *)
Definition stop_recording (self : AudioCapture) : AudioCapture * Frame :=
  if negb (is_recording self) then (self, [])
  else
    let self' :=
      {| settings := settings self;
         chunk_size := chunk_size self;
         stream := false;
         recording_buffer := recording_buffer self;
         is_recording := false;
         stop_event := true;
         capture_thread := capture_thread self;
         on_speech_start := on_speech_start self;
         on_speech_end := on_speech_end self |} in
    match recording_buffer self with
    | [] => (self', [])
    | _ :: _ => (self', concat (recording_buffer self))
    end.

(** What one successful read brings into the loop: the chunk as an array,
    the verdict of [vad.is_speech] on it, and the value [time.time()] has
    during this iteration. *)
Record Chunk := mkChunk {
  audio_np : Frame;
  is_speech_frame : bool;
  now : Q
}.

(** One turn of the [while] loop: either a chunk was read, or nothing was
    (the stream is not active, or [stream.read] raised and the handler
    logged it). *)
Inductive Iteration :=
  | NoRead
  | Read (c : Chunk).

(** The local variables of [_capture_loop]. *)
Record Locals := mkLocals {
  speech_frames : list Frame;
  silence_frames : Z;
  is_speech : bool;
  speech_start_time : option Q
}.

Definition Locals_init : Locals :=
  {| speech_frames := [];
     silence_frames := 0;
     is_speech := false;
     speech_start_time := None |}.

(** [self.recording_buffer.append(audio_np)]. *)
Definition store (self : AudioCapture) (f : Frame) : AudioCapture :=
  {| settings := settings self;
     chunk_size := chunk_size self;
     stream := stream self;
     recording_buffer := recording_buffer self ++ [f];
     is_recording := is_recording self;
     stop_event := stop_event self;
     capture_thread := capture_thread self;
     on_speech_start := on_speech_start self;
     on_speech_end := on_speech_end self |}.

Definition notify (installed : bool) (n : Notification) : list Notification :=
  if installed then [n] else [].

(** [silence_frames * self.chunk_duration_ms / 1000]. *)
Definition silence_duration (self : AudioCapture) (frames : Z) : Q :=
  inject_Z (frames * chunk_duration_ms (settings self)) / 1000.

(** The body of the [while] loop of [_capture_loop], for one iteration. *)
Definition capture_iteration (self : AudioCapture) (callback : bool)
    (l : Locals) (it : Iteration)
  : AudioCapture * Locals * list Notification :=
  match it with
  | NoRead => (self, l, [])
  | Read c =>
      let self := store self (audio_np c) in
      if is_speech_frame c then
        let '(started, start_time, out) :=
          if negb (is_speech l)
          then (true, Some (now c), notify (on_speech_start self) SpeechStart)
          else (is_speech l, speech_start_time l, []) in
        (self,
         {| speech_frames := speech_frames l ++ [audio_np c];
            silence_frames := 0;
            is_speech := started;
            speech_start_time := start_time |},
         out)
      else if is_speech l then
        let silence := (silence_frames l + 1)%Z in
        if Qle_bool (max_silence_duration (settings self))
                    (silence_duration self silence)
        then
          match speech_start_time l with
          | Some t0 =>
              let speech_duration := now c - t0 in
              let out :=
                if Qle_bool (min_speech_duration (settings self))
                            speech_duration
                then notify callback (Segment (concat (speech_frames l)))
                     ++ notify (on_speech_end self) SpeechEnd
                else [] in
              (self, Locals_init, out)
          | None =>
              (* the subtraction raises; the handler logs it *)
              (self,
               {| speech_frames := speech_frames l;
                  silence_frames := silence;
                  is_speech := is_speech l;
                  speech_start_time := speech_start_time l |},
               [])
          end
        else
          (self,
           {| speech_frames := speech_frames l;
              silence_frames := silence;
              is_speech := is_speech l;
              speech_start_time := speech_start_time l |},
           [])
      else (self, l, [])
  end.

(** The [while] loop from given locals, over the iterations it makes before
    [stop_event] is set. *)
Fixpoint capture_from (self : AudioCapture) (callback : bool) (l : Locals)
    (its : list Iteration) : AudioCapture * Locals * list Notification :=
  match its with
  | [] => (self, l, [])
  | it :: rest =>
      let '(self1, l1, out1) := capture_iteration self callback l it in
      let '(self2, l2, out2) := capture_from self1 callback l1 rest in
      (self2, l2, out1 ++ out2)
  end.

(** [AudioCapture._capture_loop]. *)
Definition _capture_loop (self : AudioCapture) (callback : bool)
    (its : list Iteration) : AudioCapture * list Notification :=
  let '(self', _, out) := capture_from self callback Locals_init its in
  (self', out).

(** The segments handed to [callback]. *)
Definition segments (out : list Notification) : list Frame :=
  omap (λ n, match n with Segment a => Some a | _ => None end) out.

(** The chunks a run of iterations delivered. *)
Definition delivered (its : list Iteration) : list Chunk :=
  omap (λ it, match it with Read c => Some c | NoRead => None end) its.

(** A recording session: [start_recording], the capture thread running over
    [its], then [stop_recording].  The result is the final state, the
    notifications of the session and the array [stop_recording] returns. *)
Definition session (self : AudioCapture) (opened callback : bool)
    (its : list Iteration)
  : option (AudioCapture * list Notification * Frame) :=
  match start_recording self opened with
  | None => None
  | Some self1 =>
      let '(self2, out) := _capture_loop self1 callback its in
      let '(self3, audio) := stop_recording self2 in
      Some (self3, out, audio)
  end.

(** ** The runtime update of the push-to-talk key *)

(** Modelled from the spec: "case-insensitive" is read as comparing after
    [str.lower()], here on the ASCII range. *)
Definition lower_ascii (c : ascii) : ascii :=
  let n := nat_of_ascii c in
  if ((65 <=? n) && (n <=? 90))%nat then ascii_of_nat (n + 32) else c.

Fixpoint lower (s : string) : string :=
  match s with
  | EmptyString => EmptyString
  | String c rest => String (lower_ascii c) (lower rest)
  end.

(** Modelled from the spec: a "printable character" is one of the codes 32
    to 126. *)
Definition printable (c : ascii) : bool :=
  let n := nat_of_ascii c in ((32 <=? n) && (n <? 127))%nat.

(** Modelled from the spec: the table of "named keys", missing from the
    sources at hand; each named key goes by its member name in
    [keyboard.Key], in lower case. *)
Definition key_names : gmap string NamedKey :=
  list_to_map
    [("alt", alt); ("alt_l", alt_l); ("alt_r", alt_r); ("alt_gr", alt_gr);
     ("ctrl", ctrl); ("ctrl_l", ctrl_l); ("ctrl_r", ctrl_r);
     ("shift", shift); ("shift_l", shift_l); ("shift_r", shift_r);
     ("cmd", cmd); ("space", space); ("enter", enter); ("tab", tab);
     ("esc", esc); ("backspace", backspace);
     ("f1", f1); ("f2", f2); ("f3", f3); ("f4", f4); ("f5", f5); ("f6", f6);
     ("f7", f7); ("f8", f8); ("f9", f9); ("f10", f10); ("f11", f11);
     ("f12", f12)]%string.

(** Modelled from the spec: the string-to-key reading of
    [HotkeyManager.update_hotkey_from_string], which the tests call and the
    sources at hand do not define.  A string is recognised when, without
    regard to case, it names a key, or when it is a single printable
    character. *)
Definition key_from_string (key_str : string) : option Key :=
  let name := lower key_str in
  match key_names !! name with
  | Some k => Some (Named k)
  | None =>
      match name with
      | String c EmptyString =>
          if printable c then Some (from_char name) else None
      | _ => None
      end
  end.

(** Modelled from the spec: [HotkeyManager.update_hotkey_from_string], the
    runtime update of the push-to-talk key, missing from the sources at hand.
    A recognised string sets the key through [change_ptt_key] and reports
    success; any other string sets the default key and reports failure. *)
Definition update_hotkey_from_string (self : HotkeyManager) (key_str : string)
  : HotkeyManager * bool :=
  match key_from_string key_str with
  | Some key => (change_ptt_key self key, true)
  | None => (change_ptt_key self default_ptt_key, false)
  end.

(** ** Frame sequences *)

(** Iterations that all read a chunk. *)
Definition reads (cs : list Chunk) : list Iteration := map Read cs.

Definition frames (cs : list Chunk) : list Frame := map audio_np cs.

Definition all_speech (cs : list Chunk) : Prop :=
  Forall (λ c, is_speech_frame c = true) cs.

Definition all_silence (cs : list Chunk) : Prop :=
  Forall (λ c, is_speech_frame c = false) cs.

(** Every frame holds [n] samples. *)
Definition frames_of_size (n : nat) (cs : list Chunk) : Prop :=
  Forall (λ c, length (audio_np c) = n) cs.

(** The frame period in seconds. *)
Definition frame_period (cfg : Settings) : Q :=
  inject_Z (chunk_duration_ms cfg) / 1000.

(** Capture in real time: a chunk is read at least one frame period after
    the chunk before it, as the blocking read waits for the device to fill
    the next chunk. *)
Fixpoint real_time (period : Q) (cs : list Chunk) : bool :=
  match cs with
  | [] => true
  | c :: rest =>
      match rest with
      | [] => true
      | c' :: _ => Qle_bool (now c + period) (now c') && real_time period rest
      end
  end.

(** Chunks of [size] zero samples with the given verdicts, read one frame
    period apart, the first at time [t]. *)
Fixpoint paced (size : nat) (period t : Q) (verdicts : list bool)
  : list Chunk :=
  match verdicts with
  | [] => []
  | v :: rest =>
      {| audio_np := repeat 0%Z size; is_speech_frame := v; now := t |}
      :: paced size period (Qred (t + period)) rest
  end.

(** A recorder with the default settings and both detector callbacks
    installed, and the same with a minimum speech duration of two seconds. *)
Definition recorder : AudioCapture :=
  set_vad_callbacks (AudioCapture_init default_settings) true true.

Definition patient_recorder : AudioCapture :=
  set_vad_callbacks
    (AudioCapture_init
       {| sample_rate := 16000;
          channels := 1;
          chunk_duration_ms := 30;
          vad_aggressiveness := 2;
          min_speech_duration := 2;
          max_silence_duration := 1 |})
    true true.

(** [n] speech frames of 480 samples, in real time from time 0. *)
Definition speech_run (n : nat) : list Chunk :=
  paced 480 (frame_period default_settings) 0 (repeat true n).

(** [m] silent frames of 480 samples, in real time after [n] frames. *)
Definition silence_run (n m : nat) : list Chunk :=
  paced 480 (frame_period default_settings)
    (Qred (inject_Z (Z.of_nat n) * frame_period default_settings))
    (repeat false m).

(** The buffer after frames [fs] have been stored. *)
Definition store_all (self : AudioCapture) (fs : list Frame) : AudioCapture :=
  {| settings := settings self;
     chunk_size := chunk_size self;
     stream := stream self;
     recording_buffer := recording_buffer self ++ fs;
     is_recording := is_recording self;
     stop_event := stop_event self;
     capture_thread := capture_thread self;
     on_speech_start := on_speech_start self;
     on_speech_end := on_speech_end self |}.

(** The silence counter at which the loop ends a speech run. *)
Definition silence_ends (self : AudioCapture) (n : Z) : bool :=
  Qle_bool (max_silence_duration (settings self)) (silence_duration self n).

(** ** hotkey_manager.py: the listener and the global hot keys *)

Module Listener.

(** A callable registered for a hot key, named by a number. *)
Definition Callback := nat.

(** What the manager asks of pynput, in the order of the calls:
    [keyboard.Listener(...).start()], [listener.stop()] and
    [keyboard.GlobalHotKeys(hotkeys).start()]. *)
Inductive Effect :=
  | ListenerStart
  | ListenerStop
  | GlobalStart (hotkeys : gmap string Callback).

#[global] Instance Effect_eq_dec : EqDecision Effect.
Proof. solve_decision. Defined.

(** [GlobalHotkeyManager]: the fields of [HotkeyManager] the handlers use,
    [self.listener] ([None] or a listener), the registered hot keys, and
    [self.global_listener] with the table it was built from. *)
Record GlobalHotkeyManager := mkGlobalHotkeyManager {
  manager : HotkeyManager;
  listener : bool;
  global_hotkeys : gmap string Callback;
  global_listener : option (gmap string Callback)
}.

(** [GlobalHotkeyManager.__init__]. *)
Definition GlobalHotkeyManager_init : GlobalHotkeyManager :=
  {| manager := HotkeyManager_init;
     listener := false;
     global_hotkeys := ∅;
     global_listener := None |}.

(** [HotkeyManager.start]. *)
Definition start (self : GlobalHotkeyManager)
  : GlobalHotkeyManager * list Effect :=
  if listener self then (self, [])
  else
    ({| manager := manager self;
        listener := true;
        global_hotkeys := global_hotkeys self;
        global_listener := global_listener self |},
     [ListenerStart]).

(** [HotkeyManager.stop], which [GlobalHotkeyManager] inherits. *)
Definition stop (self : GlobalHotkeyManager)
  : GlobalHotkeyManager * list Effect :=
  if listener self then
    ({| manager := manager self;
        listener := false;
        global_hotkeys := global_hotkeys self;
        global_listener := global_listener self |},
     [ListenerStop])
  else (self, []).

(** [GlobalHotkeyManager.register_global_hotkey]. *)
Definition register_global_hotkey (self : GlobalHotkeyManager)
    (hotkey_str : string) (callback : Callback) : GlobalHotkeyManager :=
  {| manager := manager self;
     listener := listener self;
     global_hotkeys := <[hotkey_str := callback]> (global_hotkeys self);
     global_listener := global_listener self |}.

(** How a call ends: it returns, or [keyboard.GlobalHotKeys] raises
    [ValueError]. *)
Inductive Outcome :=
  | Returned
  | Raised.

(** [keyboard.GlobalHotKeys(hotkeys)] parses the string of every entry of
    the table when it is built and raises on one it cannot parse.  [parses]
    tells which strings pynput can parse. *)
Definition hotkeys_parse (parses : string → bool)
    (hotkeys : gmap string Callback) : bool :=
  forallb (λ entry, parses entry.1) (map_to_list hotkeys).

(** [GlobalHotkeyManager.start]: a non-empty table gets a new
    [GlobalHotKeys] listener, then the key listener is started as in
    [HotkeyManager.start].  When the table holds a string that does not
    parse, the construction of the listener raises: nothing is assigned and
    nothing is started. *)
Definition GlobalHotkeyManager_start (parses : string → bool)
    (self : GlobalHotkeyManager)
  : GlobalHotkeyManager * list Effect * Outcome :=
  if bool_decide (global_hotkeys self ≠ ∅) then
    if hotkeys_parse parses (global_hotkeys self) then
      let self1 :=
        {| manager := manager self;
           listener := listener self;
           global_hotkeys := global_hotkeys self;
           global_listener := Some (global_hotkeys self) |} in
      let '(self2, out2) := start self1 in
      (self2, GlobalStart (global_hotkeys self) :: out2, Returned)
    else (self, [], Raised)
  else
    let '(self2, out2) := start self in
    (self2, out2, Returned).

(** [n] calls of [GlobalHotkeyManager.start] in a row, up to the first that
    raises. *)
Fixpoint start_times (parses : string → bool) (n : nat)
    (self : GlobalHotkeyManager)
  : GlobalHotkeyManager * list Effect * Outcome :=
  match n with
  | O => (self, [], Returned)
  | S n' =>
      match GlobalHotkeyManager_start parses self with
      | (self1, out1, Returned) =>
          let '(self2, out2, outcome) := start_times parses n' self1 in
          (self2, out1 ++ out2, outcome)
      | (self1, out1, Raised) => (self1, out1, Raised)
      end
  end.

Definition is_global_start (e : Effect) : bool :=
  match e with GlobalStart _ => true | _ => false end.

Definition is_listener_start (e : Effect) : bool :=
  match e with ListenerStart => true | _ => false end.

Definition count_effect (p : Effect → bool) (out : list Effect) : nat :=
  length (List.filter p out).

End Listener.

(** ** The held keys, key by key *)

(** Whether [key] is down after [events], when [init] tells whether it was
    down before: the last event of [key] decides. *)
Fixpoint held_after (init : bool) (events : list KeyEvent) (key : Key)
  : bool :=
  match events with
  | [] => init
  | Press k :: rest =>
      held_after (if bool_decide (k = key) then true else init) rest key
  | Release k :: rest =>
      held_after (if bool_decide (k = key) then false else init) rest key
  end.

(** The key an event is about. *)
Definition event_key (e : KeyEvent) : Key :=
  match e with Press k => k | Release k => k end.

(** What one key of a combination asks of the held keys. *)
Definition key_satisfied (self : HotkeyManager) (key : Key) : bool :=
  if is_named key && key_in key ctrl_variants then any_held self ctrl_variants
  else if is_named key && key_in key alt_variants
       then any_held self alt_variants
  else held self key.

(** ** audio_capture.py: device list and push-to-talk capture *)

Module Devices.

(** The entries of [get_device_info_by_index] the code reads. *)
Record DeviceInfo := mkDeviceInfo {
  name : string;
  maxInputChannels : Z;
  defaultSampleRate : Q
}.

(** The dictionaries [get_audio_devices] returns. *)
Record Device := mkDevice {
  index : nat;
  device_name : string;
  device_channels : Z;
  device_sample_rate : Q
}.

(** The loop of [get_audio_devices] from index [i] on; [infos] are the
    answers of [get_device_info_by_index] for [i], [i + 1], ... *)
Fixpoint devices_from (i : nat) (infos : list DeviceInfo) : list Device :=
  match infos with
  | [] => []
  | info :: rest =>
      if (0 <? maxInputChannels info)%Z then
        {| index := i;
           device_name := name info;
           device_channels := maxInputChannels info;
           device_sample_rate := defaultSampleRate info |}
        :: devices_from (S i) rest
      else devices_from (S i) rest
  end.

(** [AudioCapture.get_audio_devices], for the devices the host reports. *)
Definition get_audio_devices (infos : list DeviceInfo) : list Device :=
  devices_from 0 infos.

End Devices.

Module PushToTalk.

(** [PushToTalkCapture]: an [AudioCapture] with two more fields. *)
Record PushToTalkCapture := mkPushToTalkCapture {
  capture : AudioCapture;
  ptt_buffer : list Frame;
  ptt_active : bool
}.

(** [PushToTalkCapture.__init__]. *)
Definition PushToTalkCapture_init (cfg : Settings) : PushToTalkCapture :=
  {| capture := AudioCapture_init cfg;
     ptt_buffer := [];
     ptt_active := false |}.

(** How a call ends. *)
Inductive Outcome :=
  | Returned
  | Raised.

(** [PushToTalkCapture.start_push_to_talk].  The flag is set before
    [start_recording] is called, so it stays set when that call raises. *)
Definition start_push_to_talk (self : PushToTalkCapture) (opened : bool)
  : PushToTalkCapture * Outcome :=
  if ptt_active self then (self, Returned)
  else
    match start_recording (capture self) opened with
    | Some capture' =>
        ({| capture := capture'; ptt_buffer := []; ptt_active := true |},
         Returned)
    | None =>
        ({| capture := capture self; ptt_buffer := []; ptt_active := true |},
         Raised)
    end.

(** [PushToTalkCapture.stop_push_to_talk].  The message logged at the end
    divides by [self.sample_rate]; with a rate of zero the division raises
    and nothing is returned ([None]), after the state has changed. *)
Definition stop_push_to_talk (self : PushToTalkCapture)
  : PushToTalkCapture * option Frame :=
  if negb (ptt_active self) then (self, Some [])
  else
    let '(capture', audio_data) := stop_recording (capture self) in
    ({| capture := capture';
        ptt_buffer := ptt_buffer self;
        ptt_active := false |},
     if (sample_rate (settings (capture self)) =? 0)%Z then None
     else Some audio_data).

(** A push-to-talk gesture: [start_push_to_talk], the capture thread running
    over [its] (started without a segment callback), [stop_push_to_talk].
    The result is the final state, the notifications and the audio
    returned. *)
Definition gesture (self : PushToTalkCapture) (its : list Iteration)
  : PushToTalkCapture * list Notification * option Frame :=
  let '(self1, _) := start_push_to_talk self true in
  let '(capture2, out) := _capture_loop (capture self1) false its in
  let '(self3, audio) :=
    stop_push_to_talk
      {| capture := capture2;
         ptt_buffer := ptt_buffer self1;
         ptt_active := ptt_active self1 |} in
  (self3, out, audio).

End PushToTalk.

(** A run is open exactly when frames have been collected for it. *)
Definition run_consistent (l : Locals) : Prop :=
  is_speech l = true ↔ speech_frames l ≠ [].

(** ** Notifications of a run *)

Definition count_notification (n : Notification) (out : list Notification)
  : nat :=
  length (filter (λ x, x = n) out).

(** The frames of the chunks the detector classified as speech. *)
Definition speech_frames_of (cs : list Chunk) : list Frame :=
  frames (List.filter is_speech_frame cs).

(** * Properties of the key tracker *)

Section KeyTracker.

Implicit Types (self : HotkeyManager) (key : Key).

Lemma held_true self key : held self key = true ↔ key ∈ current_keys self.
Proof. unfold held. apply bool_decide_eq_true. Qed.

Lemma any_held_true self l :
  any_held self l = true ↔ ∃ k, k ∈ l ∧ k ∈ current_keys self.
Proof.
  unfold any_held. rewrite existsb_exists. split.
  - intros (k & Hin & Hk). exists k. split.
    + by apply list_elem_of_In.
    + by apply held_true.
  - intros (k & Hin & Hk). exists k. split.
    + by apply list_elem_of_In.
    + by apply held_true.
Qed.

(** The combination depends on the held keys only. *)
Lemma combo_pressed_ext self self' keys :
  current_keys self = current_keys self' →
  _is_combo_pressed self keys = _is_combo_pressed self' keys.
Proof.
  intros Heq. induction keys as [|key rest IH]; [done|].
  cbn [_is_combo_pressed]. unfold any_held, held. rewrite Heq, IH. done.
Qed.

(** A press only adds to the held keys, so a met combination stays met. *)
Lemma combo_pressed_mono self self' keys :
  current_keys self ⊆ current_keys self' →
  _is_combo_pressed self keys = true →
  _is_combo_pressed self' keys = true.
Proof.
  intros Hsub. 
  assert (Hheld : ∀ k, held self k = true → held self' k = true).
  { intros k. rewrite !held_true. set_solver. }
  assert (Hany : ∀ l, any_held self l = true → any_held self' l = true).
  { intros l. rewrite !any_held_true. intros (k & ? & ?). exists k. set_solver. }
  induction keys as [|key rest IH]; [done|].
  cbn [_is_combo_pressed].
  destruct (is_named key).
  - destruct (key_in key ctrl_variants).
    + destruct (any_held self ctrl_variants) eqn:E; cbn [negb]; [|done].
      rewrite (Hany _ E). exact IH.
    + destruct (key_in key alt_variants).
      * destruct (any_held self alt_variants) eqn:E; cbn [negb]; [|done].
        rewrite (Hany _ E). exact IH.
      * destruct (held self key) eqn:E; cbn [negb]; [|done].
        rewrite (Hheld _ E). exact IH.
  - destruct (held self key) eqn:E; cbn [negb]; [|done].
    rewrite (Hheld _ E). exact IH.
Qed.

Lemma press_current_keys self key :
  current_keys (_on_key_press self key).1 = {[ key ]} ∪ current_keys self.
Proof.
  unfold _on_key_press.
  destruct (bool_decide (key = ptt_key self) && negb (ptt_active self)); done.
Qed.

Lemma press_ptt_key self key : ptt_key (_on_key_press self key).1 = ptt_key self.
Proof.
  unfold _on_key_press.
  destruct (bool_decide (key = ptt_key self) && negb (ptt_active self)); done.
Qed.

Lemma press_ptt_active self :
  ptt_active (_on_key_press self (ptt_key self)).1 = true.
Proof.
  unfold _on_key_press. rewrite bool_decide_eq_true_2 by done.
  destruct (ptt_active self) eqn:E; cbn; done.
Qed.

Lemma count_signal_app s out out' :
  count_signal s (out ++ out') = (count_signal s out + count_signal s out')%nat.
Proof. unfold count_signal. by rewrite filter_app, length_app. Qed.

Lemma count_signal_fire s b s' :
  count_signal s (fire b s') = if b && bool_decide (s' = s) then 1%nat else 0%nat.
Proof.
  unfold count_signal, fire. destruct b; cbn [andb]; [|done].
  rewrite filter_cons, filter_nil. case_decide; case_bool_decide; done.
Qed.

(** The callbacks of one press, in order. *)
Lemma press_out self key :
  (_on_key_press self key).2
  = (if bool_decide (key = ptt_key self) && negb (ptt_active self)
     then fire (on_push_to_talk_start self) PushToTalkStart else [])
    ++ (if _is_combo_pressed (_on_key_press self key).1 toggle_combo
        then fire (on_toggle self) Toggle else []).
Proof.
  unfold _on_key_press.
  destruct (bool_decide (key = ptt_key self) && negb (ptt_active self));
    reflexivity.
Qed.

(** Start signals of one press. *)
Lemma press_start_count self key :
  count_signal PushToTalkStart (_on_key_press self key).2
  = if bool_decide (key = ptt_key self) && negb (ptt_active self)
       && on_push_to_talk_start self
    then 1%nat else 0%nat.
Proof.
  rewrite press_out, count_signal_app.
  assert (count_signal PushToTalkStart
            (if _is_combo_pressed (_on_key_press self key).1 toggle_combo
             then fire (on_toggle self) Toggle else []) = 0%nat) as ->.
  { destruct (_is_combo_pressed _ _); [|done].
    rewrite count_signal_fire. by rewrite andb_false_r. }
  rewrite Nat.add_0_r.
  destruct (bool_decide (key = ptt_key self) && negb (ptt_active self));
    cbn [andb]; [|done].
  rewrite count_signal_fire. by rewrite andb_true_r.
Qed.

(** Toggle signals of one press. *)
Lemma press_toggle_count self key :
  count_signal Toggle (_on_key_press self key).2
  = if on_toggle self
       && _is_combo_pressed (_on_key_press self key).1 toggle_combo
    then 1%nat else 0%nat.
Proof.
  rewrite press_out, count_signal_app.
  assert (count_signal Toggle
            (if bool_decide (key = ptt_key self) && negb (ptt_active self)
             then fire (on_push_to_talk_start self) PushToTalkStart else [])
          = 0%nat) as ->.
  { destruct (_ && _); [|done].
    rewrite count_signal_fire. by rewrite andb_false_r. }
  cbn [Nat.add].
  destruct (_is_combo_pressed _ _).
  - rewrite count_signal_fire. by rewrite !andb_true_r.
  - by rewrite andb_false_r.
Qed.

(** Key repeat: presses of the push-to-talk key while it is active emit no
    start signal. *)
Lemma repeat_no_start self n :
  ptt_active self = true →
  count_signal PushToTalkStart
    (listen self (repeat (Press (ptt_key self)) n)).2 = 0%nat.
Proof.
  revert self. induction n as [|n IH]; intros self Hact; [done|].
  cbn [repeat listen handle].
  destruct (_on_key_press self (ptt_key self)) as [self1 out1] eqn:E1.
  assert (Hk : ptt_key self1 = ptt_key self)
    by (rewrite <- (press_ptt_key self (ptt_key self)); by rewrite E1).
  assert (Ha : ptt_active self1 = true)
    by (rewrite <- (press_ptt_active self); by rewrite E1).
  assert (Hc : count_signal PushToTalkStart out1 = 0%nat).
  { pose proof (press_start_count self (ptt_key self)) as H.
    rewrite E1 in H. cbn [snd] in H. rewrite H, Hact.
    by rewrite andb_false_r. }
  rewrite <- Hk.
  destruct (listen self1 (repeat (Press (ptt_key self1)) n)) as [self2 out2] eqn:E2.
  cbn [snd]. rewrite count_signal_app, Hc.
  specialize (IH self1 Ha). rewrite E2 in IH. exact IH.
Qed.

(** Release of the push-to-talk key while it is active. *)
Lemma release_active self :
  ptt_active self = true →
  _on_key_release self (ptt_key self)
  = (set_current_keys (set_ptt_active self false)
       (current_keys self ∖ {[ ptt_key self ]}),
     fire (on_push_to_talk_stop self) PushToTalkStop).
Proof.
  intros Hact. unfold _on_key_release.
  rewrite bool_decide_eq_true_2 by done. rewrite Hact. reflexivity.
Qed.

Lemma release_toggle_count self key :
  count_signal Toggle (_on_key_release self key).2 = 0%nat.
Proof.
  unfold _on_key_release.
  destruct (bool_decide (key = ptt_key self) && ptt_active self);
    cbn [snd]; [|done].
  rewrite count_signal_fire. by rewrite andb_false_r.
Qed.

Ltac key_in_compute :=
  repeat match goal with
  | |- context [key_in ?k ?l] =>
      let b := eval vm_compute in (key_in k l) in
      replace (key_in k l) with b by (by vm_compute)
  end.

(** A combination of a control role, an alt role and a character is met
    exactly when some variant of each role and the character are held. *)
Lemma role_combo_pressed self c a ch :
  c ∈ ctrl_variants → a ∈ alt_variants →
  _is_combo_pressed self [c; a; from_char ch]
  = any_held self ctrl_variants && any_held self alt_variants
    && held self (from_char ch).
Proof.
  intros Hc Ha. unfold ctrl_variants in Hc. unfold alt_variants in Ha.
  repeat (apply elem_of_cons in Hc as [->|Hc]);
    [| | |by apply elem_of_nil in Hc];
    (repeat (apply elem_of_cons in Ha as [->|Ha]);
       [| | |by apply elem_of_nil in Ha]);
    cbn [_is_combo_pressed is_named from_char]; key_in_compute;
    (destruct (any_held self ctrl_variants); cbn [negb andb]; [|done]);
    (destruct (any_held self alt_variants); cbn [negb andb]; [|done]);
    by destruct (held self _).
Qed.

(** C8: for a configured combination of a control role, an alt role and the
    character 'm', a held-key set with left control, left alt and 'm' and a
    held-key set with right control, right alt and 'm' give the same result
    of the combo-pressed predicate (both satisfy the combination). *)
Theorem combo_left_right_variants (c a : Key) (L R : HotkeyManager) :
  c ∈ ctrl_variants → a ∈ alt_variants →
  {[ Named ctrl_l; Named alt_l; from_char "m" ]} ⊆ current_keys L →
  {[ Named ctrl_r; Named alt_r; from_char "m" ]} ⊆ current_keys R →
  _is_combo_pressed L [c; a; from_char "m"]
  = _is_combo_pressed R [c; a; from_char "m"]
  ∧ _is_combo_pressed L [c; a; from_char "m"] = true.
Proof.
  intros Hc Ha HL HR.
  assert (HLt : _is_combo_pressed L [c; a; from_char "m"] = true).
  { rewrite role_combo_pressed by done.
    rewrite !andb_true_iff, !any_held_true, held_true.
    split; [split|].
    - exists (Named ctrl_l). split; [by apply (bool_decide_unpack _)|].
      apply HL. set_solver.
    - exists (Named alt_l). split; [by apply (bool_decide_unpack _)|].
      apply HL. set_solver.
    - apply HL. set_solver. }
  assert (HRt : _is_combo_pressed R [c; a; from_char "m"] = true).
  { rewrite role_combo_pressed by done.
    rewrite !andb_true_iff, !any_held_true, held_true.
    split; [split|].
    - exists (Named ctrl_r). split; [by apply (bool_decide_unpack _)|].
      apply HR. set_solver.
    - exists (Named alt_r). split; [by apply (bool_decide_unpack _)|].
      apply HR. set_solver.
    - apply HR. set_solver. }
  by rewrite HLt, HRt.
Qed.

Lemma combo_left_right_variants_witness :
  _is_combo_pressed combo_held [Named ctrl; Named alt; from_char "m"]
  = _is_combo_pressed
      (set_current_keys tracker
         {[ Named ctrl_r; Named alt_r; from_char "m" ]})
      [Named ctrl; Named alt; from_char "m"]
  ∧ _is_combo_pressed combo_held [Named ctrl; Named alt; from_char "m"] = true.
Proof.
  apply (combo_left_right_variants (Named ctrl) (Named alt) combo_held
           (set_current_keys tracker
              {[ Named ctrl_r; Named alt_r; from_char "m" ]})).
  - by apply (bool_decide_unpack _).
  - by apply (bool_decide_unpack _).
  - by apply (bool_decide_unpack _).
  - reflexivity.
Defined.

(** C2, as stated, fails: with left control, left alt and 'm' held, the
    combination is met, and the press of a further key, 'x', calls the toggle
    callback again.  So it is false that a press in a state where the
    combination is already met emits no toggle signal. *)
Lemma toggle_refires_while_held :
  _is_combo_pressed combo_held toggle_combo = true
  ∧ (_on_key_press combo_held (from_char "x")).2 = [Toggle]
  ∧ ¬ (∀ self key,
         _is_combo_pressed self toggle_combo = true →
         count_signal Toggle (_on_key_press self key).2 = 0%nat).
Proof.
  assert (Hc : _is_combo_pressed combo_held toggle_combo = true)
    by (by vm_compute).
  split; [exact Hc|]. split; [by vm_compute|].
  intros H. specialize (H combo_held (from_char "x") Hc).
  vm_compute in H. discriminate H.
Qed.

(** C2, amended: the toggle signal is level-triggered at press events.  A
    press fires the toggle callback (when installed) exactly when, once the
    key is added, the held-key set meets the combination; hence every press
    made while the combination is already met fires it again.  A release
    never fires it. *)
Theorem toggle_level_triggered self key :
  count_signal Toggle (_on_key_press self key).2
  = (if on_toggle self
        && _is_combo_pressed
             (set_current_keys self ({[ key ]} ∪ current_keys self))
             toggle_combo
     then 1%nat else 0%nat)
  ∧ count_signal Toggle (_on_key_release self key).2 = 0%nat
  ∧ (on_toggle self = true →
     _is_combo_pressed self toggle_combo = true →
     count_signal Toggle (_on_key_press self key).2 = 1%nat).
Proof.
  assert (Hext : _is_combo_pressed (_on_key_press self key).1 toggle_combo
                 = _is_combo_pressed
                     (set_current_keys self ({[ key ]} ∪ current_keys self))
                     toggle_combo).
  { apply combo_pressed_ext. by rewrite press_current_keys. }
  split; [|split].
  - by rewrite press_toggle_count, Hext.
  - apply release_toggle_count.
  - intros Hon Hheld. rewrite press_toggle_count, Hon. cbn [andb].
    rewrite (combo_pressed_mono self (_on_key_press self key).1); [done| |done].
    rewrite press_current_keys. set_solver.
Qed.

Lemma toggle_level_triggered_witness :
  count_signal Toggle (_on_key_press combo_held (from_char "x")).2 = 1%nat.
Proof.
  apply (toggle_level_triggered combo_held (from_char "x")).
  - reflexivity.
  - by vm_compute.
Defined.

(** C7: from a state where push-to-talk is not active, N >= 1 consecutive
    press events of the push-to-talk key (key repeat, no release in between)
    invoke the start callback exactly once; and a release of the
    push-to-talk key while push-to-talk is active invokes the stop callback
    exactly once and leaves push-to-talk inactive. *)
Theorem ptt_edge_triggered self (n : nat) :
  ptt_active self = false →
  on_push_to_talk_start self = true →
  on_push_to_talk_stop self = true →
  let presses := repeat (Press (ptt_key self)) (S n) in
  count_signal PushToTalkStart (listen self presses).2 = 1%nat
  ∧ count_signal PushToTalkStop
      (_on_key_release (listen self presses).1 (ptt_key self)).2 = 1%nat
  ∧ ∀ self',
      ptt_active self' = true →
      on_push_to_talk_stop self' = true →
      (_on_key_release self' (ptt_key self')).2 = [PushToTalkStop]
      ∧ ptt_active (_on_key_release self' (ptt_key self')).1 = false.
Proof.
  intros Hact Hstart Hstop presses.
  assert (Hrel : ∀ self',
    ptt_active self' = true → on_push_to_talk_stop self' = true →
    (_on_key_release self' (ptt_key self')).2 = [PushToTalkStop]
    ∧ ptt_active (_on_key_release self' (ptt_key self')).1 = false).
  { intros self' Ha Hs. rewrite release_active by done.
    cbn [fst snd]. by rewrite Hs. }
  assert (Hinv : ∀ m self0,
    ptt_active self0 = true →
    let r := (listen self0 (repeat (Press (ptt_key self0)) m)).1 in
    ptt_active r = true ∧ ptt_key r = ptt_key self0
    ∧ on_push_to_talk_stop r = on_push_to_talk_stop self0).
  { induction m as [|m IH]; intros self0 Ha; [done|].
    cbn [repeat listen handle].
    destruct (_on_key_press self0 (ptt_key self0)) as [s1 o1] eqn:E1.
    assert (Hk : ptt_key s1 = ptt_key self0)
      by (rewrite <- (press_ptt_key self0 (ptt_key self0)); by rewrite E1).
    assert (Ha1 : ptt_active s1 = true)
      by (rewrite <- (press_ptt_active self0); by rewrite E1).
    assert (Hs1 : on_push_to_talk_stop s1 = on_push_to_talk_stop self0).
    { replace s1 with (_on_key_press self0 (ptt_key self0)).1 by (by rewrite E1).
      unfold _on_key_press. by destruct (_ && _). }
    rewrite <- Hk. specialize (IH s1 Ha1).
    destruct (listen s1 (repeat (Press (ptt_key s1)) m)) as [s2 o2].
    cbn [fst] in *. destruct IH as (? & ? & ?). repeat split; congruence. }
  subst presses. cbn [repeat listen handle].
  destruct (_on_key_press self (ptt_key self)) as [s1 o1] eqn:E1.
  assert (Hk : ptt_key s1 = ptt_key self)
    by (rewrite <- (press_ptt_key self (ptt_key self)); by rewrite E1).
  assert (Ha1 : ptt_active s1 = true)
    by (rewrite <- (press_ptt_active self); by rewrite E1).
  assert (Hs1 : on_push_to_talk_stop s1 = true).
  { replace s1 with (_on_key_press self (ptt_key self)).1 by (by rewrite E1).
    unfold _on_key_press. by destruct (_ && _). }
  assert (Hc1 : count_signal PushToTalkStart o1 = 1%nat).
  { pose proof (press_start_count self (ptt_key self)) as H.
    rewrite E1 in H. cbn [snd] in H. rewrite H, Hact, Hstart.
    by rewrite bool_decide_eq_true_2. }
  pose proof (repeat_no_start s1 n Ha1) as Hrest.
  pose proof (Hinv n s1 Ha1) as Hfin.
  rewrite Hk in Hrest, Hfin.
  destruct (listen s1 (repeat (Press (ptt_key self)) n)) as [s2 o2].
  cbn [fst snd] in *. destruct Hfin as (Ha2 & Hk2 & Hs2).
  split; [|split].
  - rewrite count_signal_app, Hc1, Hrest. done.
  - rewrite <- Hk2.
    destruct (Hrel s2 Ha2) as [-> _]; [congruence|done].
  - exact Hrel.
Qed.

Lemma ptt_edge_triggered_witness :
  count_signal PushToTalkStart
    (listen tracker (repeat (Press (Named f9)) 5)).2 = 1%nat.
Proof.
  apply (ptt_edge_triggered tracker 4); reflexivity.
Defined.

(** C3: the runtime update of the push-to-talk key reads its string without
    regard to case (a key name such as "F12" or "Space", or one printable
    character).  A string it does not recognise makes F9, the default, the
    push-to-talk key of the tracker, whatever the key was before, instead of
    failing; a recognised string makes the key it names the push-to-talk
    key.  Nothing else in the tracker changes.  For every string the update
    returns a boolean, [true] exactly when the string was recognised. *)
Theorem update_hotkey_from_string_fallback self (key_str : string) :
  let r := update_hotkey_from_string self key_str in
  (∀ other, lower other = lower key_str →
     update_hotkey_from_string self other = r)
  ∧ (key_from_string key_str = None →
     ptt_key r.1 = Named f9 ∧ r.2 = false
     ∧ r = (change_ptt_key self default_ptt_key, false))
  ∧ (∀ key, key_from_string key_str = Some key →
     ptt_key r.1 = key ∧ r.2 = true ∧ r = (change_ptt_key self key, true))
  ∧ (current_keys r.1 = current_keys self
     ∧ ptt_active r.1 = ptt_active self
     ∧ on_push_to_talk_start r.1 = on_push_to_talk_start self
     ∧ on_push_to_talk_stop r.1 = on_push_to_talk_stop self
     ∧ on_toggle r.1 = on_toggle self)
  ∧ (r.2 = true ↔ is_Some (key_from_string key_str))
  ∧ (r.2 = false → ptt_key r.1 = Named f9)
  ∧ (ptt_key (update_hotkey_from_string self "F12").1 = Named f12
     ∧ ptt_key (update_hotkey_from_string self "f12").1 = Named f12
     ∧ ptt_key (update_hotkey_from_string self "Space").1 = Named space
     ∧ ptt_key (update_hotkey_from_string self "X").1 = from_char "x"
     ∧ ptt_key (update_hotkey_from_string self "InvalidKey123").1 = Named f9
     ∧ (update_hotkey_from_string self "InvalidKey123").2 = false
     ∧ (update_hotkey_from_string self "F12").2 = true).
Proof.
  intros r. subst r.
  split; [|split; [|split; [|split; [|split; [|split]]]]].
  - intros other Heq. unfold update_hotkey_from_string, key_from_string.
    by rewrite Heq.
  - intros Hnone. unfold update_hotkey_from_string. by rewrite Hnone.
  - intros key Hsome. unfold update_hotkey_from_string. by rewrite Hsome.
  - unfold update_hotkey_from_string.
    by destruct (key_from_string key_str).
  - unfold update_hotkey_from_string.
    destruct (key_from_string key_str) as [key|]; cbn [snd].
    + split; [by eauto|done].
    + split; [done|]. by intros [? ?].
  - unfold update_hotkey_from_string.
    by destruct (key_from_string key_str).
  - unfold update_hotkey_from_string.
    replace (key_from_string "F12") with (Some (Named f12)) by (by vm_compute).
    replace (key_from_string "f12") with (Some (Named f12)) by (by vm_compute).
    replace (key_from_string "Space") with (Some (Named space))
      by (by vm_compute).
    replace (key_from_string "X") with (Some (from_char "x"))
      by (by vm_compute).
    replace (key_from_string "InvalidKey123") with (@None Key)
      by (by vm_compute).
    by repeat split.
Qed.

Lemma update_hotkey_from_string_fallback_witness :
  let r := update_hotkey_from_string (change_ptt_key tracker (Named f12))
             "InvalidKey123" in
  (ptt_key r.1 = Named f9 ∧ r.2 = false
   ∧ r = (change_ptt_key (change_ptt_key tracker (Named f12))
            default_ptt_key, false))
  ∧ update_hotkey_from_string tracker "f12"
    = update_hotkey_from_string tracker "F12"
  ∧ (ptt_key (update_hotkey_from_string tracker "F12").1 = Named f12
     ∧ (update_hotkey_from_string tracker "F12").2 = true
     ∧ update_hotkey_from_string tracker "F12"
       = (change_ptt_key tracker (Named f12), true)).
Proof.
  split; [|split].
  - apply (update_hotkey_from_string_fallback
             (change_ptt_key tracker (Named f12)) "InvalidKey123").
    reflexivity.
  - apply (update_hotkey_from_string_fallback tracker "F12"). reflexivity.
  - apply (update_hotkey_from_string_fallback tracker "F12"). reflexivity.
Defined.

End KeyTracker.

(** * Properties of the capture loop *)

Section Capture.

Implicit Types (self : AudioCapture) (callback : bool) (l : Locals).
Implicit Types (c : Chunk) (cs : list Chunk) (its : list Iteration).

Lemma store_all_nil self : store_all self [] = self.
Proof. destruct self. unfold store_all. cbn. by rewrite app_nil_r. Qed.

Lemma store_all_app self fs fs' :
  store_all (store_all self fs) fs' = store_all self (fs ++ fs').
Proof. unfold store_all. cbn. by rewrite app_assoc. Qed.

Lemma store_store_all self f : store self f = store_all self [f].
Proof. reflexivity. Qed.

(** Running the loop over two stretches of iterations. *)
Lemma capture_from_app self callback l its its' :
  capture_from self callback l (its ++ its')
  = let '(self1, l1, out1) := capture_from self callback l its in
    let '(self2, l2, out2) := capture_from self1 callback l1 its' in
    (self2, l2, out1 ++ out2).
Proof.
  revert self l. induction its as [|it its IH]; intros self l.
  - cbn. by destruct (capture_from self callback l its') as [[? ?] ?].
  - cbn [app capture_from].
    destruct (capture_iteration self callback l it) as [[self1 l1] out1].
    rewrite IH.
    destruct (capture_from self1 callback l1 its) as [[self2 l2] out2].
    destruct (capture_from self2 callback l2 its') as [[self3 l3] out3].
    by rewrite app_assoc.
Qed.

(** What an iteration does to the object: a chunk read is stored, whatever
    the detector says about it. *)
Lemma capture_iteration_self self callback l it :
  (capture_iteration self callback l it).1.1
  = match it with
    | NoRead => self
    | Read c => store self (audio_np c)
    end.
Proof.
  destruct it as [|c]; [done|]. unfold capture_iteration.
  destruct (is_speech_frame c).
  - by destruct (negb (is_speech l)).
  - destruct (is_speech l); [|done].
    destruct (Qle_bool _ _); [|done].
    by destruct (speech_start_time l).
Qed.

Lemma delivered_cons_read c its : delivered (Read c :: its) = c :: delivered its.
Proof. reflexivity. Qed.

Lemma delivered_reads cs : delivered (reads cs) = cs.
Proof.
  induction cs as [|c cs IH]; [done|].
  change (delivered (reads (c :: cs))) with (c :: delivered (reads cs)).
  by rewrite IH.
Qed.

Lemma capture_from_self self callback l its :
  (capture_from self callback l its).1.1
  = store_all self (frames (delivered its)).
Proof.
  revert self l. induction its as [|it its IH]; intros self l.
  - cbn. by rewrite store_all_nil.
  - cbn [capture_from].
    pose proof (capture_iteration_self self callback l it) as Hit.
    destruct (capture_iteration self callback l it) as [[self1 l1] out1].
    specialize (IH self1 l1).
    destruct (capture_from self1 callback l1 its) as [[self2 l2] out2].
    cbn [fst] in *. subst self1 self2.
    destruct it as [|c]; [done|].
    rewrite delivered_cons_read. cbn [frames map].
    by rewrite store_store_all, store_all_app.
Qed.

(** In the silence state, silence changes nothing and notifies nobody. *)
Lemma capture_from_idle self callback l its :
  is_speech l = false →
  all_silence (delivered its) →
  capture_from self callback l its
  = (store_all self (frames (delivered its)), l, []).
Proof.
  intros Hl. revert self. induction its as [|it its IH]; intros self Hsil.
  - cbn. by rewrite store_all_nil.
  - destruct it as [|c].
    + cbn [capture_from capture_iteration]. rewrite IH by done. done.
    + rewrite delivered_cons_read in Hsil. apply Forall_cons in Hsil as [Hc Hsil].
      cbn [capture_from capture_iteration]. rewrite Hc, Hl.
      rewrite IH by done. rewrite delivered_cons_read. cbn [frames map].
      by rewrite store_store_all, store_all_app.
Qed.

(** The first speech frame in the silence state starts a run. *)
Lemma capture_iteration_start self callback l c :
  is_speech l = false →
  is_speech_frame c = true →
  capture_iteration self callback l (Read c)
  = (store self (audio_np c),
     {| speech_frames := speech_frames l ++ [audio_np c];
        silence_frames := 0;
        is_speech := true;
        speech_start_time := Some (now c) |},
     notify (on_speech_start self) SpeechStart).
Proof. intros Hl Hc. unfold capture_iteration. by rewrite Hc, Hl. Qed.

(** Speech frames during a run are collected. *)
Lemma capture_from_speech self callback l cs :
  is_speech l = true →
  silence_frames l = 0%Z →
  all_speech cs →
  capture_from self callback l (reads cs)
  = (store_all self (frames cs),
     {| speech_frames := speech_frames l ++ frames cs;
        silence_frames := 0;
        is_speech := true;
        speech_start_time := speech_start_time l |},
     []).
Proof.
  revert self l. induction cs as [|c cs IH]; intros self l Hl Hs Hsp.
  - cbn. rewrite store_all_nil, app_nil_r. destruct l; cbn in *; by subst.
  - apply Forall_cons in Hsp as [Hc Hsp].
    cbn [reads map capture_from capture_iteration]. rewrite Hc, Hl. cbn [negb].
    fold (reads cs). rewrite IH by done. cbn [speech_frames speech_start_time].
    cbn [frames map]. fold (frames cs).
    by rewrite store_store_all, store_all_app, <- app_assoc.
Qed.

(** Silence during a run, short of the limit, is only counted. *)
Lemma capture_from_pause self callback l cs :
  is_speech l = true →
  all_silence cs →
  (∀ j : nat, (1 ≤ j ≤ length cs)%nat →
     silence_ends self (silence_frames l + Z.of_nat j) = false) →
  capture_from self callback l (reads cs)
  = (store_all self (frames cs),
     {| speech_frames := speech_frames l;
        silence_frames := silence_frames l + Z.of_nat (length cs);
        is_speech := true;
        speech_start_time := speech_start_time l |},
     []).
Proof.
  revert self l. induction cs as [|c cs IH]; intros self l Hl Hsil Hbelow.
  - cbn. rewrite store_all_nil, Z.add_0_r. destruct l; cbn in *; by subst.
  - apply Forall_cons in Hsil as [Hc Hsil].
    cbn [reads map capture_from capture_iteration]. rewrite Hc, Hl.
    change (Qle_bool (max_silence_duration _) _)
      with (silence_ends self (silence_frames l + 1)).
    pose proof (Hbelow 1%nat ltac:(cbn; lia)) as H1.
    change (Z.of_nat 1) with 1%Z in H1. rewrite H1.
    fold (reads cs). rewrite IH; [| done | done |].
    + cbn [speech_frames speech_start_time silence_frames length frames map].
      fold (frames cs). rewrite store_store_all, store_all_app.
      do 3 f_equal. lia.
    + intros j Hj. cbn [silence_frames].
      change (silence_ends (store self (audio_np c)) ?n)
        with (silence_ends self n).
      replace (silence_frames l + 1 + Z.of_nat j)%Z
        with (silence_frames l + Z.of_nat (S j))%Z by lia.
      apply Hbelow. cbn. lia.
Qed.

(** The silent frame that reaches the limit ends the run: the collected
    frames go to the callback when the time since the first speech frame is
    at least the minimum, and are dropped otherwise. *)
Lemma capture_iteration_end self callback l c t0 :
  is_speech l = true →
  speech_start_time l = Some t0 →
  is_speech_frame c = false →
  silence_ends self (silence_frames l + 1) = true →
  capture_iteration self callback l (Read c)
  = (store self (audio_np c), Locals_init,
     if Qle_bool (min_speech_duration (settings self)) (now c - t0)
     then notify callback (Segment (concat (speech_frames l)))
          ++ notify (on_speech_end self) SpeechEnd
     else []).
Proof.
  intros Hl Ht Hc Hend. unfold capture_iteration. rewrite Hc, Hl.
  change (Qle_bool (max_silence_duration _) _)
    with (silence_ends self (silence_frames l + 1)).
  by rewrite Hend, Ht.
Qed.

Lemma reads_app cs cs' : reads (cs ++ cs') = reads cs ++ reads cs'.
Proof. apply map_app. Qed.

Lemma frames_app cs cs' : frames (cs ++ cs') = frames cs ++ frames cs'.
Proof. apply map_app. Qed.

(** Frames of [n] samples each add up to [n] samples a frame. *)
Lemma frames_total_length (n : nat) cs :
  frames_of_size n cs →
  length (concat (frames cs)) = (length cs * n)%nat.
Proof.
  induction 1 as [|c cs Hc _ IH]; [done|].
  cbn [frames map concat length]. fold (frames cs).
  rewrite length_app, IH, Hc. lia.
Qed.

(** A speech run followed by silence that reaches the limit.  [c] is the
    first speech frame and [c_end] the silent frame at which the limit is
    reached; the time the loop compares with the minimum speech duration is
    the time between the two. *)
Lemma capture_loop_burst self callback c speech pre c_end post :
  all_speech (c :: speech) →
  all_silence (pre ++ c_end :: post) →
  (∀ j : nat, (1 ≤ j ≤ length pre)%nat →
     silence_ends self (Z.of_nat j) = false) →
  silence_ends self (Z.of_nat (length pre) + 1) = true →
  _capture_loop self callback (reads ((c :: speech) ++ pre ++ c_end :: post))
  = (store_all self (frames ((c :: speech) ++ pre ++ c_end :: post)),
     notify (on_speech_start self) SpeechStart
     ++ (if Qle_bool (min_speech_duration (settings self)) (now c_end - now c)
         then notify callback (Segment (concat (frames (c :: speech))))
              ++ notify (on_speech_end self) SpeechEnd
         else [])).
Proof.
  intros Hsp Hsil Hbelow Hend.
  apply Forall_cons in Hsp as [Hc Hsp].
  apply Forall_app in Hsil as [Hpre Hsil].
  apply Forall_cons in Hsil as [Hce Hpost].
  unfold _capture_loop.
  change (reads ((c :: speech) ++ pre ++ c_end :: post))
    with (Read c :: reads (speech ++ pre ++ c_end :: post)).
  cbn [capture_from].
  rewrite capture_iteration_start by done.
  rewrite reads_app, capture_from_app.
  rewrite capture_from_speech by done.
  rewrite reads_app, capture_from_app.
  rewrite capture_from_pause; [|done|done|exact Hbelow].
  change (reads (c_end :: post)) with (Read c_end :: reads post).
  cbn [capture_from].
  rewrite (capture_iteration_end _ _ _ _ (now c)); [|done|done|done|exact Hend].
  rewrite capture_from_idle; [|done|by rewrite delivered_reads].
  rewrite delivered_reads, app_nil_r.
  change (store self (audio_np c)) with (store_all self [audio_np c]).
  change (store (store_all ?a ?fs) ?f) with (store_all (store_all a fs) [f]).
  rewrite !store_all_app.
  f_equal. f_equal.
  change (c :: speech) with ([c] ++ speech).
  rewrite !frames_app, <- !app_assoc. reflexivity.
Qed.

(** With 30 ms chunks and a silence limit of one second, the limit is
    reached at the 34th silent frame: [n * 30 / 1000 >= 1.0]. *)
Lemma silence_ends_30ms self (n : Z) :
  chunk_duration_ms (settings self) = 30%Z →
  max_silence_duration (settings self) = 1 →
  silence_ends self n = (1000 <=? n * 30)%Z.
Proof.
  intros Hchunk Hmax. unfold silence_ends, silence_duration.
  rewrite Hchunk, Hmax.
  unfold Qle_bool, Qdiv, Qmult, Qinv, inject_Z. cbn [Qnum Qden].
  f_equal; lia.
Qed.

Lemma silence_ends_default self (n : Z) :
  settings self = default_settings →
  silence_ends self n = (1000 <=? n * 30)%Z.
Proof. intros Hcfg. apply silence_ends_30ms; by rewrite Hcfg. Qed.

Lemma real_time_step period cs (i : nat) c c' :
  real_time period cs = true →
  cs !! i = Some c →
  cs !! S i = Some c' →
  now c + period <= now c'.
Proof.
  revert i. induction cs as [|c0 cs IH]; intros i Hrt Hi HS; [done|].
  destruct cs as [|c1 cs]; [done|].
  cbn [real_time] in Hrt. apply andb_true_iff in Hrt as [Hle Hrt].
  destruct i as [|i].
  - cbn in Hi, HS. assert (c0 = c) as <- by congruence.
    assert (c1 = c') as <- by congruence. by apply Qle_bool_iff.
  - apply (IH i); done.
Qed.

(** In real time, [k] frames later is at least [k] frame periods later. *)
Lemma real_time_elapsed period cs (i k : nat) c c' :
  real_time period cs = true →
  cs !! i = Some c →
  cs !! (i + k)%nat = Some c' →
  now c + inject_Z (Z.of_nat k) * period <= now c'.
Proof.
  intros Hrt Hi. revert c'. induction k as [|k IH]; intros c' Hk.
  - rewrite Nat.add_0_r in Hk. assert (c' = c) as -> by congruence.
    change (inject_Z (Z.of_nat 0)) with 0. lra.
  - replace (i + S k)%nat with (S (i + k)) in Hk by lia.
    destruct (cs !! (i + k)%nat) as [cm|] eqn:Hm.
    + specialize (IH cm eq_refl).
      pose proof (real_time_step period cs (i + k)%nat cm c' Hrt Hm Hk) as Hstep.
      assert (Hk1 : inject_Z (Z.of_nat (S k)) == inject_Z (Z.of_nat k) + 1).
      { rewrite Nat2Z.inj_succ. unfold Z.succ. by rewrite inject_Z_plus. }
      rewrite Hk1. lra.
    + apply lookup_ge_None in Hm. apply lookup_lt_Some in Hk. lia.
Qed.

(** Under the default settings and in real time, every speech run that is
    followed by 34 silent frames or more is handed to the callback: when the
    silence limit of one second is reached, more than the minimum of half a
    second has passed since the first speech frame, whatever the length of
    the run. *)
Lemma capture_loop_default_burst self callback speech silence :
  settings self = default_settings →
  speech ≠ [] →
  (34 ≤ length silence)%nat →
  all_speech speech →
  all_silence silence →
  real_time (frame_period default_settings) (speech ++ silence) = true →
  _capture_loop self callback (reads (speech ++ silence))
  = (store_all self (frames (speech ++ silence)),
     notify (on_speech_start self) SpeechStart
     ++ notify callback (Segment (concat (frames speech)))
     ++ notify (on_speech_end self) SpeechEnd).
Proof.
  intros Hcfg Hne Hlen Hsp Hsil Hrt.
  destruct speech as [|c speech]; [done|].
  destruct (lookup_lt_is_Some_2 silence 33 ltac:(lia)) as [c_end Hce].
  pose proof (take_drop_middle silence 33 c_end Hce) as Hsplit.
  assert (Hpre : length (take 33 silence) = 33%nat)
    by (rewrite length_take; lia).
  rewrite <- Hsplit in Hsil |- *.
  rewrite (capture_loop_burst self callback c speech (take 33 silence) c_end
             (drop 34 silence)); [|done|done| |].
  - assert (Hmin : Qle_bool (min_speech_duration (settings self))
                     (now c_end - now c) = true).
    { rewrite Hcfg. apply Qle_bool_iff.
      cbn [min_speech_duration default_settings].
      pose proof (real_time_elapsed _ _ 0 (length (c :: speech) + 33) c c_end
                    Hrt eq_refl) as Hel.
      rewrite lookup_app_r in Hel by lia.
      replace (0 + (length (c :: speech) + 33) - length (c :: speech))%nat
        with 33%nat in Hel by lia.
      specialize (Hel Hce).
      assert (Hk : 33 <= inject_Z (Z.of_nat (length (c :: speech) + 33))).
      { change 33 with (inject_Z 33). rewrite <- Zle_Qle. lia. }
      assert (Hp : frame_period default_settings == 3 # 100) by reflexivity.
      rewrite Hp in Hel. nra. }
    by rewrite Hmin.
  - intros j Hj. rewrite silence_ends_default by done.
    apply Z.leb_gt. lia.
  - rewrite silence_ends_default by done. apply Z.leb_le. lia.
Qed.

(** C4: with sample rate 16000 and 30 ms chunks (480 samples a frame), the
    default minimum speech duration of 0.5 s and silence limit of 1.0 s,
    20 speech frames followed by 40 silent frames, captured in real time,
    make the loop call [on_speech_start] once, then the segment callback
    once with the 20 speech frames (9600 samples) and none of the silent
    ones, then [on_speech_end] once, and nothing else. *)
Theorem speech_20_silence_40_one_segment self speech silence :
  settings self = default_settings →
  on_speech_start self = true →
  on_speech_end self = true →
  length speech = 20%nat →
  length silence = 40%nat →
  all_speech speech →
  all_silence silence →
  frames_of_size 480 speech →
  real_time (frame_period default_settings) (speech ++ silence) = true →
  (_capture_loop self true (reads (speech ++ silence))).2
  = [SpeechStart; Segment (concat (frames speech)); SpeechEnd]
  ∧ Z.of_nat (length (concat (frames speech))) = 9600%Z
  ∧ chunk_size (AudioCapture_init default_settings) = 480%Z.
Proof.
  intros Hcfg Hstart Hend Hn Hm Hsp Hsil Hsize Hrt.
  split; [|split].
  - rewrite capture_loop_default_burst; try done.
    + cbn [snd]. by rewrite Hstart, Hend.
    + by destruct speech.
    + lia.
  - rewrite (frames_total_length 480), Hn by done. by vm_compute.
  - reflexivity.
Qed.

Lemma speech_20_silence_40_one_segment_witness :
  (_capture_loop recorder true (reads (speech_run 20 ++ silence_run 20 40))).2
  = [SpeechStart; Segment (concat (frames (speech_run 20))); SpeechEnd]
  ∧ Z.of_nat (length (concat (frames (speech_run 20)))) = 9600%Z
  ∧ chunk_size (AudioCapture_init default_settings) = 480%Z.
Proof.
  apply (speech_20_silence_40_one_segment recorder
           (speech_run 20) (silence_run 20 40));
    try reflexivity; apply (bool_decide_unpack _); vm_compute; exact I.
Defined.

(** C1: the code does not do what the claim says.  With the default
    settings, 10 speech frames (300 ms) followed by 40 silent frames,
    captured in real time, are handed to the segment callback as one
    segment, with [on_speech_end] after it: the duration the loop compares
    with the minimum is the time from the first speech frame to the silent
    frame that reaches the silence limit, which includes the second of
    silence. *)
Theorem speech_10_silence_40_is_emitted self speech silence :
  settings self = default_settings →
  on_speech_start self = true →
  on_speech_end self = true →
  length speech = 10%nat →
  length silence = 40%nat →
  all_speech speech →
  all_silence silence →
  real_time (frame_period default_settings) (speech ++ silence) = true →
  (_capture_loop self true (reads (speech ++ silence))).2
  = [SpeechStart; Segment (concat (frames speech)); SpeechEnd]
  ∧ length (segments (_capture_loop self true (reads (speech ++ silence))).2)
    = 1%nat.
Proof.
  intros Hcfg Hstart Hend Hn Hm Hsp Hsil Hrt.
  assert (Hout : (_capture_loop self true (reads (speech ++ silence))).2
                 = [SpeechStart; Segment (concat (frames speech)); SpeechEnd]).
  { rewrite capture_loop_default_burst; try done.
    - cbn [snd]. by rewrite Hstart, Hend.
    - by destruct speech.
    - lia. }
  split; [done|]. by rewrite Hout.
Qed.

Lemma speech_10_silence_40_is_emitted_witness :
  (_capture_loop recorder true (reads (speech_run 10 ++ silence_run 10 40))).2
  = [SpeechStart; Segment (concat (frames (speech_run 10))); SpeechEnd]
  ∧ length (segments
      (_capture_loop recorder true
         (reads (speech_run 10 ++ silence_run 10 40))).2) = 1%nat.
Proof.
  apply (speech_10_silence_40_is_emitted recorder
           (speech_run 10) (silence_run 10 40));
    try reflexivity; apply (bool_decide_unpack _); vm_compute; exact I.
Defined.

(** C9: when no frame of the sequence is classified as speech, the loop
    invokes no callback at all; in particular the segment callback receives
    no segment. *)
Theorem no_speech_no_segment self callback its :
  all_silence (delivered its) →
  (_capture_loop self callback its).2 = []
  ∧ segments (_capture_loop self callback its).2 = [].
Proof.
  intros Hsil. unfold _capture_loop.
  rewrite capture_from_idle by done. done.
Qed.

Lemma no_speech_no_segment_witness :
  (_capture_loop recorder true (NoRead :: reads (silence_run 0 50))).2 = []
  ∧ segments
      (_capture_loop recorder true (NoRead :: reads (silence_run 0 50))).2
    = [].
Proof.
  apply (no_speech_no_segment recorder true
           (NoRead :: reads (silence_run 0 50))).
  apply (bool_decide_unpack _). vm_compute. exact I.
Defined.

(** Stopping an active session returns the concatenated buffer. *)
Lemma stop_recording_active self :
  is_recording self = true →
  (stop_recording self).2 = concat (recording_buffer self)
  ∧ recording_buffer (stop_recording self).1 = recording_buffer self
  ∧ is_recording (stop_recording self).1 = false.
Proof.
  intros Hrec. unfold stop_recording. rewrite Hrec. cbn [negb].
  by destruct (recording_buffer self).
Qed.

(** C5: in a recording session started from the idle state, every frame the
    loop reads is appended to the recording buffer, whatever the detector
    says about it; when every frame holds [n] samples, the array
    [stop_recording] returns holds [n] samples for each frame delivered. *)
Theorem recording_buffer_keeps_every_frame self callback its (n : nat) :
  is_recording self = false →
  frames_of_size n (delivered its) →
  ∃ self' out audio,
    session self true callback its = Some (self', out, audio)
    ∧ recording_buffer self' = frames (delivered its)
    ∧ audio = concat (frames (delivered its))
    ∧ length audio = (length (delivered its) * n)%nat.
Proof.
  intros Hidle Hsize. unfold session, start_recording. rewrite Hidle.
  unfold _capture_loop.
  match goal with |- context [capture_from ?s callback Locals_init its] =>
    pose proof (capture_from_self s callback Locals_init its) as Hself;
    destruct (capture_from s callback Locals_init its) as [[self2 l2] out]
  end.
  cbn [fst] in Hself.
  assert (Hrec : is_recording self2 = true) by (by subst self2).
  assert (Hbuf : recording_buffer self2 = frames (delivered its))
    by (by subst self2).
  destruct (stop_recording_active self2 Hrec) as (Haudio & Hkept & _).
  destruct (stop_recording self2) as [self3 audio].
  cbn [fst snd] in Haudio, Hkept.
  exists self3, out, audio. split; [done|].
  rewrite Hkept, Haudio, Hbuf. repeat split.
  by apply frames_total_length.
Qed.

Lemma recording_buffer_keeps_every_frame_witness :
  ∃ self' out audio,
    session recorder true true
      (reads (speech_run 3 ++ silence_run 3 2 )) = Some (self', out, audio)
    ∧ recording_buffer self'
      = frames (delivered (reads (speech_run 3 ++ silence_run 3 2)))
    ∧ audio = concat (frames (delivered (reads (speech_run 3 ++ silence_run 3 2))))
    ∧ length audio
      = (length (delivered (reads (speech_run 3 ++ silence_run 3 2))) * 480)%nat.
Proof.
  apply (recording_buffer_keeps_every_frame recorder true
           (reads (speech_run 3 ++ silence_run 3 2)) 480).
  - reflexivity.
  - apply (bool_decide_unpack _). vm_compute. exact I.
Defined.

(** C6: [stop_recording] is a total function of the state.  With no session
    active it leaves the state as it is and returns the empty array; a
    second call right after a first one returns the empty array; and after
    any call the session is idle. *)
Theorem stop_recording_safe self :
  (is_recording self = false → stop_recording self = (self, []))
  ∧ (stop_recording (stop_recording self).1).2 = []
  ∧ is_recording (stop_recording self).1 = false.
Proof.
  unfold stop_recording.
  destruct (is_recording self) eqn:Hrec; cbn [negb].
  - split; [done|]. by destruct (recording_buffer self).
  - cbn [fst snd]. by rewrite Hrec.
Qed.

Lemma stop_recording_safe_witness :
  stop_recording recorder = (recorder, []).
Proof.
  apply (stop_recording_safe recorder). reflexivity.
Defined.

(** C10: start and end notifications are not paired.  [on_speech_start] is
    called at every first speech frame met in the silence state, also for a
    run that is dropped later; [on_speech_end] is called only by an
    iteration that finds the time since the start of the run to be at least
    the minimum speech duration.  So a speech run followed by silence up to
    the limit, whose measured duration is below the minimum, yields one call
    of [on_speech_start] and nothing else. *)
Theorem speech_start_without_speech_end self callback speech silence
    (k : nat) c c_end :
  on_speech_start self = true →
  all_speech speech →
  all_silence silence →
  speech !! 0%nat = Some c →
  silence !! k = Some c_end →
  (∀ j : nat, (1 ≤ j ≤ k)%nat → silence_ends self (Z.of_nat j) = false) →
  silence_ends self (Z.of_nat k + 1) = true →
  Qle_bool (min_speech_duration (settings self)) (now c_end - now c) = false →
  (_capture_loop self callback (reads (speech ++ silence))).2 = [SpeechStart]
  ∧ (∀ l c0,
       is_speech l = false → is_speech_frame c0 = true →
       (capture_iteration self callback l (Read c0)).2 = [SpeechStart])
  ∧ (∀ l it,
       SpeechEnd ∈ (capture_iteration self callback l it).2 →
       ∃ c0 t0,
         it = Read c0 ∧ is_speech l = true ∧ speech_start_time l = Some t0
         ∧ min_speech_duration (settings self) <= now c0 - t0).
Proof.
  intros Hstart Hsp Hsil Hc Hce Hbelow Hend Hshort.
  split; [|split].
  - destruct speech as [|c' speech]; [done|].
    cbn in Hc. assert (c' = c) as -> by congruence.
    pose proof (take_drop_middle silence k c_end Hce) as Hsplit.
    assert (Hpre : length (take k silence) = k).
    { rewrite length_take. apply lookup_lt_Some in Hce. lia. }
    rewrite <- Hsplit in Hsil |- *.
    rewrite (capture_loop_burst self callback c speech (take k silence) c_end
               (drop (S k) silence)); [|done|done| |].
    + cbn [snd]. by rewrite Hshort, Hstart.
    + by rewrite Hpre.
    + by rewrite Hpre.
  - intros l c0 Hl Hc0. rewrite capture_iteration_start by done.
    cbn [snd]. by rewrite Hstart.
  - intros l it Hin. destruct it as [|c0]; [by apply elem_of_nil in Hin|].
    unfold capture_iteration in Hin.
    destruct (is_speech_frame c0).
    { destruct (negb (is_speech l)); cbn [snd] in Hin.
      - unfold notify in Hin. destruct (on_speech_start _).
        + apply list_elem_of_singleton in Hin. discriminate Hin.
        + by apply elem_of_nil in Hin.
      - by apply elem_of_nil in Hin. }
    destruct (is_speech l) eqn:Hl; [|by apply elem_of_nil in Hin].
    match type of Hin with context [Qle_bool ?a ?b] =>
      destruct (Qle_bool a b) end; [|by apply elem_of_nil in Hin].
    destruct (speech_start_time l) as [t0|]; [|by apply elem_of_nil in Hin].
    cbn [snd] in Hin.
    match type of Hin with context [Qle_bool ?a ?b] =>
      destruct (Qle_bool a b) eqn:Hmin end; [|by apply elem_of_nil in Hin].
    exists c0, t0. split; [done|]. split; [done|]. split; [done|].
    apply Qle_bool_iff. exact Hmin.
Qed.

Lemma speech_start_without_speech_end_witness :
  (_capture_loop patient_recorder true
     (reads (speech_run 10 ++ silence_run 10 40))).2 = [SpeechStart].
Proof.
  refine (proj1 (speech_start_without_speech_end patient_recorder true
                   (speech_run 10) (silence_run 10 40) 33
                   (mkChunk (repeat 0%Z 480) true 0)
                   (mkChunk (repeat 0%Z 480) false (129 # 100))
                   _ _ _ _ _ _ _ _)).
  - reflexivity.
  - apply (bool_decide_unpack _). vm_compute. exact I.
  - apply (bool_decide_unpack _). vm_compute. exact I.
  - vm_compute. reflexivity.
  - vm_compute. reflexivity.
  - intros j Hj. rewrite silence_ends_30ms by reflexivity.
    apply Z.leb_gt. lia.
  - reflexivity.
  - reflexivity.
Defined.

End Capture.

(** * Further properties of the key tracker *)

Section KeyTrackerMore.

Implicit Types (self : HotkeyManager) (key : Key) (events : list KeyEvent).

Lemma combo_pressed_forallb self (keys : list Key) :
  _is_combo_pressed self keys = forallb (key_satisfied self) keys.
Proof.
  induction keys as [|key rest IH]; [done|].
  cbn [_is_combo_pressed forallb]. rewrite IH. unfold key_satisfied.
  destruct (is_named key); cbn [andb].
  - destruct (key_in key ctrl_variants).
    + by destruct (any_held self ctrl_variants).
    + destruct (key_in key alt_variants).
      * by destruct (any_held self alt_variants).
      * by destruct (held self key).
  - by destruct (held self key).
Qed.

Lemma combo_pressed_iff self (keys : list Key) :
  _is_combo_pressed self keys = true
  ↔ ∀ key, key ∈ keys → key_satisfied self key = true.
Proof.
  rewrite combo_pressed_forallb, forallb_forall. split.
  - intros H key Hin. apply H. by apply list_elem_of_In.
  - intros H key Hin. apply H. by apply list_elem_of_In.
Qed.

(** X1: the loop of [_is_combo_pressed] with its early return computes a
    conjunction: the combination is met exactly when each of its keys is
    satisfied, a control or alt key by any held variant of its role, every
    other key by being held itself. *)
Theorem combo_pressed_forall self (keys : list Key) :
  _is_combo_pressed self keys = forallb (key_satisfied self) keys
  ∧ (_is_combo_pressed self keys = true
     ↔ ∀ key, key ∈ keys → key_satisfied self key = true).
Proof.
  assert (Heq : _is_combo_pressed self keys
                = forallb (key_satisfied self) keys).
  { induction keys as [|key rest IH]; [done|].
    cbn [_is_combo_pressed forallb]. rewrite IH. unfold key_satisfied.
    destruct (is_named key); cbn [andb].
    - destruct (key_in key ctrl_variants).
      + by destruct (any_held self ctrl_variants).
      + destruct (key_in key alt_variants).
        * by destruct (any_held self alt_variants).
        * by destruct (held self key).
    - by destruct (held self key). }
  split; [exact Heq|].
  rewrite Heq, forallb_forall. split.
  - intros H key Hin. apply H. by apply list_elem_of_In.
  - intros H key Hin. apply H. by apply list_elem_of_In.
Qed.

Lemma combo_pressed_forall_witness :
  _is_combo_pressed combo_held [Named ctrl; Named alt_r; from_char "m"] = true.
Proof.
  apply (combo_pressed_forall combo_held
           [Named ctrl; Named alt_r; from_char "m"]).
  intros key Hin.
  repeat (apply elem_of_cons in Hin as [->|Hin]); [| | |by apply elem_of_nil in Hin];
    by vm_compute.
Defined.

(** X2: the order of the keys of a combination and their repetition do not
    matter: two combinations with the same keys give the same answer. *)
Theorem combo_pressed_same_keys self (keys keys' : list Key) :
  (∀ key, key ∈ keys ↔ key ∈ keys') →
  _is_combo_pressed self keys = _is_combo_pressed self keys'.
Proof.
  intros Hsame.
  apply eq_true_iff_eq. rewrite !combo_pressed_iff. split.
  - intros H key Hin. apply H. by apply Hsame.
  - intros H key Hin. apply H. by apply Hsame.
Qed.

Lemma combo_pressed_same_keys_witness :
  _is_combo_pressed combo_held [from_char "m"; Named alt; Named ctrl_r]
  = _is_combo_pressed combo_held
      [Named ctrl_r; Named alt; from_char "m"; Named alt].
Proof.
  apply (combo_pressed_same_keys combo_held).
  intros key. rewrite !elem_of_cons, !elem_of_nil. tauto.
Defined.

Lemma release_current_keys self key :
  current_keys (_on_key_release self key).1 = current_keys self ∖ {[ key ]}.
Proof.
  unfold _on_key_release.
  destruct (bool_decide (key = ptt_key self) && ptt_active self); done.
Qed.

(** X3: the held-key set follows each key on its own: after any stream of
    events a key is in the set exactly when its last event was a press, or,
    without an event of its own, when it was in the set before.  A release
    of a key that is not held is harmless. *)
Theorem listen_held_after self events key :
  held (listen self events).1 key = held_after (held self key) events key.
Proof.
  revert self. induction events as [|e rest IH]; intros self; [done|].
  cbn [listen]. destruct (handle self e) as [self1 out1] eqn:E1.
  specialize (IH self1). destruct (listen self1 rest) as [self2 out2].
  cbn [fst] in *. rewrite IH. destruct e as [k|k]; cbn [held_after handle] in *.
  - f_equal. unfold held.
    replace self1 with (_on_key_press self k).1 by (by rewrite E1).
    rewrite press_current_keys.
    destruct (decide (k = key)) as [->|Hk].
    + rewrite (bool_decide_eq_true_2 (key = key)) by done.
      apply bool_decide_eq_true_2.
      apply elem_of_union. left. by apply elem_of_singleton.
    + rewrite (bool_decide_eq_false_2 (k = key)) by done.
      apply bool_decide_ext. rewrite elem_of_union, elem_of_singleton.
      split; [intros [?|?]; [congruence|done]|by right].
  - f_equal. unfold held.
    replace self1 with (_on_key_release self k).1 by (by rewrite E1).
    rewrite release_current_keys.
    destruct (decide (k = key)) as [->|Hk].
    + rewrite (bool_decide_eq_true_2 (key = key)) by done.
      apply bool_decide_eq_false_2.
      rewrite elem_of_difference, elem_of_singleton. by intros [_ ?].
    + rewrite (bool_decide_eq_false_2 (k = key)) by done.
      apply bool_decide_ext. rewrite elem_of_difference, elem_of_singleton.
      split; [by intros [? _]|intros ?; split; [done|congruence]].
Qed.

(** The handlers never change the push-to-talk key or the callbacks. *)
Lemma handle_settings self (e : KeyEvent) :
  ptt_key (handle self e).1 = ptt_key self
  ∧ on_push_to_talk_start (handle self e).1 = on_push_to_talk_start self
  ∧ on_push_to_talk_stop (handle self e).1 = on_push_to_talk_stop self.
Proof.
  destruct e as [k|k]; cbn [handle].
  - unfold _on_key_press. by destruct (_ && _).
  - unfold _on_key_release. by destruct (_ && _).
Qed.

Lemma count_signal_fire_ne s b s' :
  s' ≠ s → count_signal s (fire b s') = 0%nat.
Proof.
  intros Hne. rewrite count_signal_fire.
  rewrite (bool_decide_eq_false_2 _ Hne). by rewrite andb_false_r.
Qed.

(** A press calls no stop callback. *)
Lemma press_stop_count self key :
  count_signal PushToTalkStop (_on_key_press self key).2 = 0%nat.
Proof.
  rewrite press_out, count_signal_app.
  destruct (bool_decide (key = ptt_key self) && negb (ptt_active self));
    destruct (_is_combo_pressed _ _);
    rewrite ?count_signal_fire_ne by done; done.
Qed.

(** The flag after a press and after a release. *)
Lemma press_flag self key :
  ptt_active (_on_key_press self key).1
  = if bool_decide (key = ptt_key self) then true else ptt_active self.
Proof.
  unfold _on_key_press.
  destruct (bool_decide (key = ptt_key self));
    destruct (ptt_active self) eqn:Ha; cbn; by rewrite ?Ha.
Qed.

Lemma release_flag self key :
  ptt_active (_on_key_release self key).1
  = if bool_decide (key = ptt_key self) then false else ptt_active self.
Proof.
  unfold _on_key_release.
  destruct (bool_decide (key = ptt_key self));
    destruct (ptt_active self) eqn:Ha; cbn; by rewrite ?Ha.
Qed.

Lemma release_stop_count self key :
  count_signal PushToTalkStop (_on_key_release self key).2
  = if bool_decide (key = ptt_key self) && ptt_active self
       && on_push_to_talk_stop self
    then 1%nat else 0%nat.
Proof.
  unfold _on_key_release.
  destruct (bool_decide (key = ptt_key self) && ptt_active self);
    cbn [snd andb]; [|done].
  rewrite count_signal_fire. by rewrite andb_true_r.
Qed.

Lemma release_start_count self key :
  count_signal PushToTalkStart (_on_key_release self key).2 = 0%nat.
Proof.
  unfold _on_key_release.
  destruct (bool_decide (key = ptt_key self) && ptt_active self);
    cbn [snd]; [|done].
  by rewrite count_signal_fire_ne.
Qed.

(** Start and stop signals of one event, and the flag after it. *)
Lemma handle_ptt self (e : KeyEvent) :
  on_push_to_talk_start self = true →
  on_push_to_talk_stop self = true →
  (count_signal PushToTalkStart (handle self e).2
   + (if ptt_active self then 1 else 0)
   = count_signal PushToTalkStop (handle self e).2
     + (if ptt_active (handle self e).1 then 1 else 0))%nat.
Proof.
  intros Hstart Hstop. destruct e as [k|k]; cbn [handle].
  - pose proof (press_start_count self k) as Hc. rewrite Hstart in Hc.
    rewrite andb_true_r in Hc. rewrite Hc.
    rewrite press_stop_count, press_flag.
    destruct (bool_decide (k = ptt_key self)); destruct (ptt_active self); done.
  - rewrite release_start_count, release_stop_count, release_flag, Hstop.
    destruct (bool_decide (k = ptt_key self)); destruct (ptt_active self); done.
Qed.

(** X4: start and stop signals are balanced over any stream of events, the
    press and release of other keys included: the start signals, plus one if
    push-to-talk was active before, are as many as the stop signals, plus
    one if it is active after.  From an inactive tracker the two counts
    differ by at most one at every point, so the signals alternate. *)
Theorem ptt_signals_balanced self events :
  on_push_to_talk_start self = true →
  on_push_to_talk_stop self = true →
  (count_signal PushToTalkStart (listen self events).2
   + (if ptt_active self then 1 else 0)
   = count_signal PushToTalkStop (listen self events).2
     + (if ptt_active (listen self events).1 then 1 else 0))%nat.
Proof.
  revert self. induction events as [|e rest IH]; intros self Hstart Hstop.
  - cbn. lia.
  - cbn [listen].
    pose proof (handle_ptt self e Hstart Hstop) as Hstep.
    destruct (handle_settings self e) as (_ & Hs1 & Hs2).
    destruct (handle self e) as [self1 out1]. cbn [fst snd] in *.
    specialize (IH self1 ltac:(congruence) ltac:(congruence)).
    destruct (listen self1 rest) as [self2 out2]. cbn [fst snd] in *.
    rewrite !count_signal_app. lia.
Qed.

Lemma ptt_signals_balanced_witness :
  (count_signal PushToTalkStart
     (listen tracker
        [Press (Named f9); Press (from_char "a"); Press (Named f9);
         Release (Named f9); Release (Named f9); Press (Named f9)]).2
   + (if ptt_active tracker then 1 else 0)
   = count_signal PushToTalkStop
       (listen tracker
          [Press (Named f9); Press (from_char "a"); Press (Named f9);
           Release (Named f9); Release (Named f9); Press (Named f9)]).2
     + (if ptt_active
             (listen tracker
                [Press (Named f9); Press (from_char "a"); Press (Named f9);
                 Release (Named f9); Release (Named f9);
                 Press (Named f9)]).1
        then 1 else 0))%nat.
Proof.
  apply (ptt_signals_balanced tracker); reflexivity.
Defined.

(** X5: events of other keys never start or stop push-to-talk. *)
Theorem other_keys_no_ptt_signal self events :
  Forall (λ e, event_key e ≠ ptt_key self) events →
  count_signal PushToTalkStart (listen self events).2 = 0%nat
  ∧ count_signal PushToTalkStop (listen self events).2 = 0%nat
  ∧ ptt_active (listen self events).1 = ptt_active self.
Proof.
  revert self. induction events as [|e rest IH]; intros self Hother; [done|].
  apply Forall_cons in Hother as [He Hrest].
  cbn [listen].
  destruct (handle_settings self e) as (Hk & _ & _).
  assert (Hstep : count_signal PushToTalkStart (handle self e).2 = 0%nat
                  ∧ count_signal PushToTalkStop (handle self e).2 = 0%nat
                  ∧ ptt_active (handle self e).1 = ptt_active self).
  { destruct e as [k|k]; cbn [handle event_key] in *.
    - rewrite press_start_count, press_out, count_signal_app.
      rewrite (bool_decide_eq_false_2 _ He). cbn [andb].
      split; [done|]. split.
      + destruct (_is_combo_pressed _ _);
          rewrite ?count_signal_fire_ne by done; done.
      + rewrite press_flag. by rewrite (bool_decide_eq_false_2 _ He).
    - rewrite release_start_count, release_stop_count, release_flag.
      by rewrite (bool_decide_eq_false_2 _ He). }
  destruct (handle self e) as [self1 out1]. cbn [fst snd] in *.
  destruct Hstep as (H1 & H2 & H3).
  specialize (IH self1). rewrite Hk in IH. specialize (IH Hrest).
  destruct (listen self1 rest) as [self2 out2]. cbn [fst snd] in *.
  destruct IH as (I1 & I2 & I3).
  rewrite !count_signal_app. repeat split; [lia|lia|congruence].
Qed.

Lemma other_keys_no_ptt_signal_witness :
  count_signal PushToTalkStart
    (listen tracker [Press (Named f8); Release (Named f8)]).2 = 0%nat
  ∧ count_signal PushToTalkStop
      (listen tracker [Press (Named f8); Release (Named f8)]).2 = 0%nat
  ∧ ptt_active (listen tracker [Press (Named f8); Release (Named f8)]).1
    = ptt_active tracker.
Proof.
  apply (other_keys_no_ptt_signal tracker).
  apply (bool_decide_unpack _). by vm_compute.
Defined.

(** X6: changing the push-to-talk key while push-to-talk is active leaves it
    active under the new key: the release of the old key calls nothing and
    leaves the flag set, a press of the new key does not start again, and it
    is the release of the new key that calls the stop callback. *)
Theorem change_ptt_key_while_active self key' :
  ptt_active self = true →
  on_push_to_talk_stop self = true →
  key' ≠ ptt_key self →
  let self' := change_ptt_key self key' in
  (_on_key_release self' (ptt_key self)).2 = []
  ∧ ptt_active (_on_key_release self' (ptt_key self)).1 = true
  ∧ count_signal PushToTalkStart (_on_key_press self' key').2 = 0%nat
  ∧ (_on_key_release self' key').2 = [PushToTalkStop]
  ∧ ptt_active (_on_key_release self' key').1 = false.
Proof.
  intros Hact Hstop Hne self'. subst self'.
  split; [|split; [|split; [|split]]].
  - unfold _on_key_release. cbn [ptt_key change_ptt_key].
    by rewrite bool_decide_eq_false_2 by congruence.
  - unfold _on_key_release. cbn [ptt_key change_ptt_key].
    by rewrite bool_decide_eq_false_2 by congruence.
  - rewrite press_start_count. cbn [ptt_active change_ptt_key].
    rewrite Hact. by rewrite andb_false_r.
  - rewrite release_active by done. cbn [snd change_ptt_key
      on_push_to_talk_stop]. by rewrite Hstop.
  - rewrite release_active by done. done.
Qed.

Lemma change_ptt_key_while_active_witness :
  let self' := change_ptt_key (_on_key_press tracker (Named f9)).1 (Named f12) in
  (_on_key_release self' (Named f9)).2 = []
  ∧ ptt_active (_on_key_release self' (Named f9)).1 = true
  ∧ count_signal PushToTalkStart (_on_key_press self' (Named f12)).2 = 0%nat
  ∧ (_on_key_release self' (Named f12)).2 = [PushToTalkStop]
  ∧ ptt_active (_on_key_release self' (Named f12)).1 = false.
Proof.
  apply (change_ptt_key_while_active (_on_key_press tracker (Named f9)).1
           (Named f12)); [reflexivity|reflexivity|discriminate].
Defined.

(** X7: when the toggle fires.  A press calls the toggle callback exactly when
    the callback is installed and, with the pressed key counted in, the held
    keys contain a control key (generic, left or right), an alt key (generic,
    left or right) and the character key 'm' itself: no other key stands in
    for 'm', not even the upper-case character the keyboard sends while
    shift is down. *)
Theorem toggle_fires_iff self key :
  count_signal Toggle (_on_key_press self key).2 = 1%nat
  ↔ on_toggle self = true
    ∧ (∃ c, c ∈ ctrl_variants ∧ c ∈ {[ key ]} ∪ current_keys self)
    ∧ (∃ a, a ∈ alt_variants ∧ a ∈ {[ key ]} ∪ current_keys self)
    ∧ from_char "m" ∈ {[ key ]} ∪ current_keys self.
Proof.
  rewrite press_toggle_count.
  assert (Hc : Named ctrl_l ∈ ctrl_variants) by (by apply (bool_decide_unpack _)).
  assert (Ha : Named alt_l ∈ alt_variants) by (by apply (bool_decide_unpack _)).
  unfold toggle_combo. rewrite (role_combo_pressed _ _ _ _ Hc Ha).
  rewrite <- press_current_keys.
  rewrite <- held_true, <- !any_held_true, <- !andb_true_iff.
  replace (on_toggle self) with (on_toggle (_on_key_press self key).1)
    by (unfold _on_key_press; by destruct (_ && _)).
  rewrite !andb_assoc.
  by destruct (_ && _ && _ && _).
Qed.

Lemma toggle_fires_iff_witness :
  count_signal Toggle (_on_key_press combo_held (from_char "M")).2 = 1%nat.
Proof.
  apply (toggle_fires_iff combo_held (from_char "M")).
  split; [reflexivity|]. split; [|split].
  - exists (Named ctrl_l). split; by apply (bool_decide_unpack _).
  - exists (Named alt_l). split; by apply (bool_decide_unpack _).
  - by apply (bool_decide_unpack _).
Defined.

End KeyTrackerMore.

(** * The listener and the global hot keys *)

Section GlobalHotkeys.

Import Listener.

Variable parses : string → bool.

Implicit Types (self : GlobalHotkeyManager).

(** One call of [GlobalHotkeyManager.start] with a non-empty table of
    strings that parse. *)
Lemma global_start_nonempty self :
  global_hotkeys self ≠ ∅ →
  hotkeys_parse parses (global_hotkeys self) = true →
  GlobalHotkeyManager_start parses self
  = ({| manager := manager self;
        listener := true;
        global_hotkeys := global_hotkeys self;
        global_listener := Some (global_hotkeys self) |},
     GlobalStart (global_hotkeys self)
     :: (if listener self then [] else [ListenerStart]),
     Returned).
Proof.
  intros Hne Hparse. unfold GlobalHotkeyManager_start.
  rewrite bool_decide_eq_true_2 by done. rewrite Hparse.
  unfold start. cbn [listener].
  destruct (listener self); reflexivity.
Qed.

Lemma start_times_started self (n : nat) :
  global_hotkeys self ≠ ∅ →
  hotkeys_parse parses (global_hotkeys self) = true →
  listener self = true →
  (start_times parses n self).2 = Returned
  ∧ count_effect is_global_start (start_times parses n self).1.2 = n
  ∧ count_effect is_listener_start (start_times parses n self).1.2 = 0%nat
  ∧ listener (start_times parses n self).1.1 = true
  ∧ global_hotkeys (start_times parses n self).1.1 = global_hotkeys self
  ∧ global_listener (start_times parses n self).1.1
    = match n with
      | O => global_listener self
      | S _ => Some (global_hotkeys self)
      end.
Proof.
  revert self. induction n as [|n IH]; intros self Hne Hparse Hl; [done|].
  cbn [start_times]. rewrite global_start_nonempty by done. rewrite Hl.
  match goal with |- context [start_times parses n ?s] =>
    specialize (IH s Hne Hparse eq_refl);
    destruct (start_times parses n s) as [[s2 o2] r2] end.
  cbn [fst snd global_hotkeys global_listener] in *.
  destruct IH as (I0 & I1 & I2 & I3 & I4 & I5).
  unfold count_effect in *.
  cbn [app List.filter is_global_start is_listener_start length].
  repeat split; [done|lia|done|done|done|].
  rewrite I5. by destruct n.
Qed.

(** X8: [GlobalHotkeyManager.start] guards the key listener but not the
    global one.  With a non-empty table whose strings all parse, each call
    builds and starts one more [GlobalHotKeys] listener, also when the
    manager is started already, while the key listener is started once;
    [stop] stops the key listener alone and leaves the global listener in
    place, and a start after it builds yet another one.  With a string in
    the table that does not parse, the construction raises and the call
    starts neither listener and changes nothing. *)
Theorem global_start_not_guarded self (n : nat) :
  global_hotkeys self ≠ ∅ →
  listener self = false →
  (hotkeys_parse parses (global_hotkeys self) = true →
   let r := start_times parses (S n) self in
   r.2 = Returned
   ∧ count_effect is_global_start r.1.2 = S n
   ∧ count_effect is_listener_start r.1.2 = 1%nat
   ∧ (stop r.1.1).2 = [ListenerStop]
   ∧ global_listener (stop r.1.1).1 = Some (global_hotkeys self)
   ∧ (GlobalHotkeyManager_start parses (stop r.1.1).1).1.2
     = [GlobalStart (global_hotkeys self); ListenerStart])
  ∧ (hotkeys_parse parses (global_hotkeys self) = false →
     GlobalHotkeyManager_start parses self = (self, [], Raised)
     ∧ start_times parses (S n) self = (self, [], Raised)).
Proof.
  intros Hne Hl. split.
  - intros Hparse r. subst r.
    cbn [start_times]. rewrite global_start_nonempty by done. rewrite Hl.
    match goal with |- context [start_times parses n ?s] =>
      pose proof (start_times_started s n Hne Hparse eq_refl) as H;
      destruct (start_times parses n s) as [[s2 o2] r2] end.
    cbn [fst snd global_hotkeys global_listener] in *.
    destruct H as (I0 & I1 & I2 & I3 & I4 & I5).
    assert (Hg : global_listener s2 = Some (global_hotkeys self)).
    { rewrite I5. by destruct n. }
    unfold count_effect in *.
    cbn [app List.filter is_global_start is_listener_start length].
    split; [done|]. split; [lia|]. split; [lia|].
    unfold stop. rewrite I3. cbn [fst snd global_listener].
    split; [done|]. split; [done|].
    rewrite global_start_nonempty
      by (cbn [global_hotkeys]; rewrite ?I4; done).
    cbn [fst snd global_hotkeys listener]. by rewrite I4.
  - intros Hparse.
    assert (Hraise : GlobalHotkeyManager_start parses self
                     = (self, [], Raised)).
    { unfold GlobalHotkeyManager_start.
      rewrite bool_decide_eq_true_2 by done. by rewrite Hparse. }
    split; [exact Hraise|]. cbn [start_times]. by rewrite Hraise.
Qed.

End GlobalHotkeys.

Lemma global_start_not_guarded_witness :
  let parses := λ s : string, bool_decide (s = "<ctrl>+<alt>+m") in
  let good := Listener.register_global_hotkey
                Listener.GlobalHotkeyManager_init "<ctrl>+<alt>+m" 1%nat in
  let bad := Listener.register_global_hotkey good "not a hotkey" 2%nat in
  (let r := Listener.start_times parses 3 good in
   r.2 = Listener.Returned
   ∧ Listener.count_effect Listener.is_global_start r.1.2 = 3%nat
   ∧ Listener.count_effect Listener.is_listener_start r.1.2 = 1%nat
   ∧ (Listener.stop r.1.1).2 = [Listener.ListenerStop]
   ∧ Listener.global_listener (Listener.stop r.1.1).1
     = Some (Listener.global_hotkeys good)
   ∧ (Listener.GlobalHotkeyManager_start parses (Listener.stop r.1.1).1).1.2
     = [Listener.GlobalStart (Listener.global_hotkeys good);
        Listener.ListenerStart])
  ∧ (Listener.GlobalHotkeyManager_start parses bad
     = (bad, [], Listener.Raised)
     ∧ Listener.start_times parses 3 bad = (bad, [], Listener.Raised)).
Proof.
  intros parses good bad. split.
  - apply (global_start_not_guarded parses good 2).
    + apply (bool_decide_unpack _). by vm_compute.
    + reflexivity.
    + by vm_compute.
  - apply (global_start_not_guarded parses bad 2).
    + apply (bool_decide_unpack _). by vm_compute.
    + reflexivity.
    + by vm_compute.
Defined.

(** * Further properties of the capture loop *)

Section CaptureMore.

Implicit Types (self : AudioCapture) (callback : bool) (l : Locals).
Implicit Types (c : Chunk) (cs : list Chunk) (its : list Iteration).

Lemma segments_app (out out' : list Notification) :
  segments (out ++ out') = segments out ++ segments out'.
Proof. apply omap_app. Qed.

Lemma segments_notify_other (b : bool) (n : Notification) :
  (∀ a, n ≠ Segment a) → segments (notify b n) = [].
Proof. intros Hn. destruct b; [|done]. destruct n; try done. by destruct (Hn speech_audio). Qed.

(** Without a segment callback an iteration hands out no segment. *)
Lemma capture_iteration_no_callback self l it :
  segments (capture_iteration self false l it).2 = [].
Proof.
  destruct it as [|c]; [done|]. unfold capture_iteration.
  destruct (is_speech_frame c).
  - destruct (negb (is_speech l)); cbn [snd]; [|done].
    by apply segments_notify_other.
  - destruct (is_speech l); [|done].
    destruct (Qle_bool _ _); [|done].
    destruct (speech_start_time l); [|done]. cbn [snd].
    destruct (Qle_bool _ _); [|done].
    rewrite segments_app. cbn [notify segments omap app].
    by apply segments_notify_other.
Qed.

Lemma capture_from_no_callback self l its :
  segments (capture_from self false l its).2 = [].
Proof.
  revert self l. induction its as [|it its IH]; intros self l; [done|].
  cbn [capture_from].
  pose proof (capture_iteration_no_callback self l it) as Hit.
  destruct (capture_iteration self false l it) as [[self1 l1] out1].
  specialize (IH self1 l1).
  destruct (capture_from self1 false l1 its) as [[self2 l2] out2].
  cbn [snd] in *. by rewrite segments_app, Hit, IH.
Qed.

(** X9: a loop started without a segment callback, as [start_push_to_talk]
    starts it, hands out no segment, whatever it reads and whatever the
    state of the run it starts from. *)
Theorem no_callback_no_segment self l its :
  segments (capture_from self false l its).2 = []
  ∧ segments (_capture_loop self false its).2 = [].
Proof.
  split; [apply capture_from_no_callback|]. unfold _capture_loop.
  pose proof (capture_from_no_callback self Locals_init its) as H.
  by destruct (capture_from self false Locals_init its) as [[? ?] ?].
Qed.

(** Speech resumed during a run: the frames are added to the run and the
    count of silent frames starts again from zero. *)
Lemma capture_from_resume self callback l cs :
  is_speech l = true →
  cs ≠ [] →
  all_speech cs →
  capture_from self callback l (reads cs)
  = (store_all self (frames cs),
     {| speech_frames := speech_frames l ++ frames cs;
        silence_frames := 0;
        is_speech := true;
        speech_start_time := speech_start_time l |},
     []).
Proof.
  intros Hl Hne Hsp. destruct cs as [|c cs]; [done|].
  apply Forall_cons in Hsp as [Hc Hsp].
  change (reads (c :: cs)) with (Read c :: reads cs).
  cbn [capture_from capture_iteration]. rewrite Hc, Hl. cbn [negb].
  rewrite capture_from_speech by done.
  cbn [speech_frames speech_start_time frames map app].
  fold (frames cs).
  change (store self (audio_np c)) with (store_all self [audio_np c]).
  by rewrite store_all_app, <- app_assoc.
Qed.

(** Silence that reaches the limit closes the run. *)
Lemma capture_from_close self callback l silence (k : nat) c_end t0 :
  is_speech l = true →
  silence_frames l = 0%Z →
  speech_start_time l = Some t0 →
  all_silence silence →
  silence !! k = Some c_end →
  (∀ j : nat, (1 ≤ j ≤ k)%nat → silence_ends self (Z.of_nat j) = false) →
  silence_ends self (Z.of_nat k + 1) = true →
  capture_from self callback l (reads silence)
  = (store_all self (frames silence), Locals_init,
     if Qle_bool (min_speech_duration (settings self)) (now c_end - t0)
     then notify callback (Segment (concat (speech_frames l)))
          ++ notify (on_speech_end self) SpeechEnd
     else []).
Proof.
  intros Hl Hs Ht Hsil Hce Hbelow Hend.
  pose proof (take_drop_middle silence k c_end Hce) as Hsplit.
  assert (Hpre : length (take k silence) = k).
  { rewrite length_take. apply lookup_lt_Some in Hce. lia. }
  rewrite <- Hsplit in Hsil |- *.
  apply Forall_app in Hsil as [Hpre_sil Hsil].
  apply Forall_cons in Hsil as [Hc Hpost].
  rewrite reads_app, capture_from_app.
  rewrite capture_from_pause; [|done|done|].
  2:{ intros j Hj. rewrite Hs. cbn [Z.add]. apply Hbelow. lia. }
  change (reads (c_end :: drop (S k) silence))
    with (Read c_end :: reads (drop (S k) silence)).
  cbn [capture_from].
  rewrite (capture_iteration_end _ _ _ _ t0); [|done|done|done|].
  2:{ cbn [silence_frames]. rewrite Hs, Hpre. exact Hend. }
  rewrite capture_from_idle; [|done|by rewrite delivered_reads].
  rewrite delivered_reads, app_nil_r.
  change (store (store_all ?a ?fs) ?f) with (store_all (store_all a fs) [f]).
  rewrite !store_all_app.
  f_equal. f_equal.
  change (c_end :: drop (S k) silence) with ([c_end] ++ drop (S k) silence).
  by rewrite !frames_app.
Qed.

(** X10: a run that is still open when the loop stops is lost to the callbacks:
    speech followed by silence short of the limit yields the start
    notification and nothing else, neither segment nor end notification.
    Its frames are in the recording buffer all the same. *)
Theorem open_run_is_not_emitted self callback speech pause :
  speech ≠ [] →
  all_speech speech →
  all_silence pause →
  (∀ j : nat, (1 ≤ j ≤ length pause)%nat →
     silence_ends self (Z.of_nat j) = false) →
  _capture_loop self callback (reads (speech ++ pause))
  = (store_all self (frames (speech ++ pause)),
     notify (on_speech_start self) SpeechStart).
Proof.
  intros Hne Hsp Hsil Hbelow. destruct speech as [|c speech]; [done|].
  apply Forall_cons in Hsp as [Hc Hsp].
  unfold _capture_loop.
  change (reads ((c :: speech) ++ pause))
    with (Read c :: reads (speech ++ pause)).
  cbn [capture_from]. rewrite capture_iteration_start by done.
  rewrite reads_app, capture_from_app.
  rewrite capture_from_speech by done.
  rewrite capture_from_pause; [|done|done|exact Hbelow].
  change (store self (audio_np c)) with (store_all self [audio_np c]).
  rewrite !store_all_app, !app_nil_r.
  change (c :: speech) with ([c] ++ speech).
  by rewrite !frames_app, <- !app_assoc.
Qed.

Lemma open_run_is_not_emitted_witness :
  _capture_loop recorder true (reads (speech_run 20 ++ silence_run 20 33))
  = (store_all recorder (frames (speech_run 20 ++ silence_run 20 33)),
     notify (on_speech_start recorder) SpeechStart).
Proof.
  apply (open_run_is_not_emitted recorder true
           (speech_run 20) (silence_run 20 33)).
  - discriminate.
  - apply (bool_decide_unpack _). vm_compute. exact I.
  - apply (bool_decide_unpack _). vm_compute. exact I.
  - intros j Hj. rewrite silence_ends_default by reflexivity.
    apply Z.leb_gt. change (length (silence_run 20 33)) with 33%nat in Hj. lia.
Defined.

(** X11: a pause inside a run is cut out of the segment.  Speech, a pause short
    of the silence limit, speech again and then silence up to the limit make
    one run: its segment is the first speech frames followed at once by the
    second, without the frames of the pause, and the pause does not count
    towards the limit that ends the run. *)
Theorem pause_is_cut_out self callback speech pause speech' silence
    (k : nat) c c_end :
  all_speech speech →
  speech !! 0%nat = Some c →
  all_silence pause →
  (∀ j : nat, (1 ≤ j ≤ length pause)%nat →
     silence_ends self (Z.of_nat j) = false) →
  speech' ≠ [] →
  all_speech speech' →
  all_silence silence →
  silence !! k = Some c_end →
  (∀ j : nat, (1 ≤ j ≤ k)%nat → silence_ends self (Z.of_nat j) = false) →
  silence_ends self (Z.of_nat k + 1) = true →
  Qle_bool (min_speech_duration (settings self)) (now c_end - now c) = true →
  (_capture_loop self callback
     (reads (speech ++ pause ++ speech' ++ silence))).2
  = notify (on_speech_start self) SpeechStart
    ++ notify callback (Segment (concat (frames speech ++ frames speech')))
    ++ notify (on_speech_end self) SpeechEnd.
Proof.
  intros Hsp Hc Hpause Hbelow Hne Hsp' Hsil Hce Hbelow' Hend Hmin.
  destruct speech as [|c0 speech]; [done|].
  cbn in Hc. assert (c0 = c) as -> by congruence.
  apply Forall_cons in Hsp as [Hc1 Hsp].
  unfold _capture_loop.
  change (reads ((c :: speech) ++ pause ++ speech' ++ silence))
    with (Read c :: reads (speech ++ pause ++ speech' ++ silence)).
  cbn [capture_from]. rewrite capture_iteration_start by done.
  rewrite reads_app, capture_from_app.
  rewrite capture_from_speech by done.
  rewrite reads_app, capture_from_app.
  rewrite capture_from_pause; [|done|done|exact Hbelow].
  rewrite reads_app, capture_from_app.
  rewrite capture_from_resume by done.
  rewrite (capture_from_close _ _ _ silence k c_end (now c));
    [|done|done|done|done|done|exact Hbelow'|exact Hend].
  cbn [snd settings store_all store on_speech_end speech_frames Locals_init
       app].
  rewrite Hmin. reflexivity.
Qed.

Lemma pause_is_cut_out_witness :
  (_capture_loop recorder true
     (reads (speech_run 5 ++ silence_run 5 20
             ++ paced 480 (frame_period default_settings) (75 # 100)
                  (repeat true 5)
             ++ silence_run 30 40))).2
  = notify (on_speech_start recorder) SpeechStart
    ++ notify true
         (Segment
            (concat
               (frames (speech_run 5)
                ++ frames (paced 480 (frame_period default_settings)
                             (75 # 100) (repeat true 5)))))
    ++ notify (on_speech_end recorder) SpeechEnd.
Proof.
  refine (pause_is_cut_out recorder true (speech_run 5) (silence_run 5 20)
            (paced 480 (frame_period default_settings) (75 # 100)
               (repeat true 5))
            (silence_run 30 40) 33
            (mkChunk (repeat 0%Z 480) true 0)
            (mkChunk (repeat 0%Z 480) false (189 # 100))
            _ _ _ _ _ _ _ _ _ _ _).
  - apply (bool_decide_unpack _). vm_compute. exact I.
  - reflexivity.
  - apply (bool_decide_unpack _). vm_compute. exact I.
  - intros j Hj. rewrite silence_ends_default by reflexivity.
    apply Z.leb_gt. change (length (silence_run 5 20)) with 20%nat in Hj. lia.
  - discriminate.
  - apply (bool_decide_unpack _). vm_compute. exact I.
  - apply (bool_decide_unpack _). vm_compute. exact I.
  - vm_compute. reflexivity.
  - intros j Hj. rewrite silence_ends_default by reflexivity.
    apply Z.leb_gt. lia.
  - reflexivity.
  - reflexivity.
Defined.

(** A complete run seen from the start of the loop: the loop is back in
    its initial state afterwards. *)
Lemma capture_from_run self callback speech silence (k : nat) c c_end :
  all_speech speech →
  speech !! 0%nat = Some c →
  all_silence silence →
  silence !! k = Some c_end →
  (∀ j : nat, (1 ≤ j ≤ k)%nat → silence_ends self (Z.of_nat j) = false) →
  silence_ends self (Z.of_nat k + 1) = true →
  capture_from self callback Locals_init (reads (speech ++ silence))
  = (store_all self (frames (speech ++ silence)), Locals_init,
     notify (on_speech_start self) SpeechStart
     ++ (if Qle_bool (min_speech_duration (settings self)) (now c_end - now c)
         then notify callback (Segment (concat (frames speech)))
              ++ notify (on_speech_end self) SpeechEnd
         else [])).
Proof.
  intros Hsp Hc Hsil Hce Hbelow Hend.
  destruct speech as [|c0 speech]; [done|].
  cbn in Hc. assert (c0 = c) as -> by congruence.
  apply Forall_cons in Hsp as [Hc1 Hsp].
  change (reads ((c :: speech) ++ silence))
    with (Read c :: reads (speech ++ silence)).
  cbn [capture_from]. rewrite capture_iteration_start by done.
  rewrite reads_app, capture_from_app.
  rewrite capture_from_speech by done.
  rewrite (capture_from_close _ _ _ silence k c_end (now c));
    [|done|done|done|done|done|exact Hbelow|exact Hend].
  change (store self (audio_np c)) with (store_all self [audio_np c]).
  rewrite !store_all_app.
  change (c :: speech) with ([c] ++ speech).
  rewrite !frames_app, <- !app_assoc. reflexivity.
Qed.

(** X12: runs do not interfere: after a run that silence has closed, the loop
    treats what follows as a loop started afresh would.  The notifications
    of the whole are those of the run followed by those of the rest, so
    segments come out in the order of the runs. *)
Theorem closed_run_then_rest self callback speech silence (k : nat) c c_end
    its :
  all_speech speech →
  speech !! 0%nat = Some c →
  all_silence silence →
  silence !! k = Some c_end →
  (∀ j : nat, (1 ≤ j ≤ k)%nat → silence_ends self (Z.of_nat j) = false) →
  silence_ends self (Z.of_nat k + 1) = true →
  (_capture_loop self callback (reads (speech ++ silence) ++ its)).2
  = (_capture_loop self callback (reads (speech ++ silence))).2
    ++ (_capture_loop (store_all self (frames (speech ++ silence)))
          callback its).2.
Proof.
  intros Hsp Hc Hsil Hce Hbelow Hend. unfold _capture_loop.
  rewrite capture_from_app.
  rewrite (capture_from_run self callback speech silence k c c_end) by done.
  by destruct (capture_from _ callback Locals_init its) as [[? ?] ?].
Qed.

Lemma closed_run_then_rest_witness :
  (_capture_loop recorder true
     (reads (speech_run 20 ++ silence_run 20 40)
      ++ reads (speech_run 20 ++ silence_run 20 40))).2
  = [SpeechStart; Segment (concat (frames (speech_run 20))); SpeechEnd;
     SpeechStart; Segment (concat (frames (speech_run 20))); SpeechEnd].
Proof.
  rewrite (closed_run_then_rest recorder true (speech_run 20)
             (silence_run 20 40) 33
             (mkChunk (repeat 0%Z 480) true 0)
             (mkChunk (repeat 0%Z 480) false (159 # 100))).
  - by vm_compute.
  - apply (bool_decide_unpack _). vm_compute. exact I.
  - reflexivity.
  - apply (bool_decide_unpack _). vm_compute. exact I.
  - vm_compute. reflexivity.
  - intros j Hj. rewrite silence_ends_default by reflexivity.
    apply Z.leb_gt. lia.
  - reflexivity.
Defined.

Lemma count_notification_app n (out out' : list Notification) :
  count_notification n (out ++ out')
  = (count_notification n out + count_notification n out')%nat.
Proof. unfold count_notification. by rewrite filter_app, length_app. Qed.

Lemma count_notification_notify n (b : bool) n' :
  count_notification n (notify b n')
  = if b && bool_decide (n' = n) then 1%nat else 0%nat.
Proof.
  unfold count_notification, notify. destruct b; cbn [andb]; [|done].
  rewrite filter_cons, filter_nil. case_decide; case_bool_decide; done.
Qed.

Lemma end_output_bounds (callback on_end : bool) (a : Frame) :
  let out := notify callback (Segment a) ++ notify on_end SpeechEnd in
  count_notification SpeechStart out = 0%nat
  ∧ (count_notification SpeechEnd out ≤ 1)%nat
  ∧ (length (segments out) ≤ 1)%nat.
Proof. destruct callback, on_end; vm_compute; repeat split; lia. Qed.

(** One iteration: ends and segments are paid for by the run that was
    open, a start opens one. *)
Lemma capture_iteration_account self callback l it :
  on_speech_start self = true →
  let r := capture_iteration self callback l it in
  (count_notification SpeechEnd r.2 + (if is_speech r.1.2 then 1 else 0)
   ≤ count_notification SpeechStart r.2 + (if is_speech l then 1 else 0))%nat
  ∧ (length (segments r.2) + (if is_speech r.1.2 then 1 else 0)
     ≤ count_notification SpeechStart r.2 + (if is_speech l then 1 else 0))%nat
  ∧ on_speech_start r.1.1 = true.
Proof.
  intros Hstart r. subst r. destruct it as [|c].
  - cbn. split; [lia|]. split; [lia|done].
  - unfold capture_iteration. destruct (is_speech_frame c).
    + destruct (is_speech l) eqn:Hl; cbn [negb fst snd is_speech].
      * cbn. split; [lia|]. split; [lia|done].
      * cbn [on_speech_start store]. rewrite Hstart.
        rewrite !count_notification_notify. cbn [andb].
        rewrite (bool_decide_eq_false_2 (SpeechStart = SpeechEnd)) by done.
        rewrite (bool_decide_eq_true_2 (SpeechStart = SpeechStart)) by done.
        cbn. split; [lia|]. split; [lia|done].
    + destruct (is_speech l) eqn:Hl; [|cbn; rewrite ?Hl; repeat split; lia || done].
      destruct (Qle_bool _ _).
      * destruct (speech_start_time l);
          [|cbn; rewrite ?Hl; repeat split; lia || done].
        cbn [fst snd is_speech Locals_init].
        destruct (Qle_bool _ _); [|cbn; repeat split; lia || done].
        destruct (end_output_bounds callback
                    (on_speech_end (store self (audio_np c)))
                    (concat (speech_frames l))) as (B1 & B2 & B3).
        cbn [on_speech_start store] in *. repeat split; lia || done.
      * cbn. rewrite ?Hl. repeat split; lia || done.
Qed.

(** X13: notifications are accounted for by runs: with a start callback
    installed, at every point of any capture there are at most as many end
    notifications, and at most as many segments, as start notifications. *)
Theorem ends_and_segments_follow_starts self callback its :
  on_speech_start self = true →
  (count_notification SpeechEnd (_capture_loop self callback its).2
   ≤ count_notification SpeechStart (_capture_loop self callback its).2)%nat
  ∧ (length (segments (_capture_loop self callback its).2)
     ≤ count_notification SpeechStart (_capture_loop self callback its).2)%nat.
Proof.
  intros Hstart.
  assert (H : ∀ self l, on_speech_start self = true →
    let r := capture_from self callback l its in
    (count_notification SpeechEnd r.2 + (if is_speech r.1.2 then 1 else 0)
     ≤ count_notification SpeechStart r.2 + (if is_speech l then 1 else 0))%nat
    ∧ (length (segments r.2) + (if is_speech r.1.2 then 1 else 0)
       ≤ count_notification SpeechStart r.2
         + (if is_speech l then 1 else 0))%nat).
  { induction its as [|it its IH]; intros self0 l0 Hs0.
    - cbn. split; lia.
    - cbn [capture_from].
      pose proof (capture_iteration_account self0 callback l0 it Hs0) as Hit.
      destruct (capture_iteration self0 callback l0 it) as [[self1 l1] out1].
      cbn [fst snd] in Hit. destruct Hit as (H1 & H2 & H3).
      specialize (IH self1 l1 H3).
      destruct (capture_from self1 callback l1 its) as [[self2 l2] out2].
      cbn [fst snd] in *. destruct IH as [I1 I2].
      rewrite !count_notification_app, segments_app, length_app.
      split; lia. }
  specialize (H self Locals_init Hstart). unfold _capture_loop.
  destruct (capture_from self callback Locals_init its) as [[self2 l2] out2].
  cbn [fst snd is_speech Locals_init] in *. destruct H as [H1 H2].
  split; lia.
Qed.

Lemma ends_and_segments_follow_starts_witness :
  (count_notification SpeechEnd
     (_capture_loop recorder true
        (reads (speech_run 3 ++ silence_run 3 40 ++ speech_run 2))).2
   ≤ count_notification SpeechStart
       (_capture_loop recorder true
          (reads (speech_run 3 ++ silence_run 3 40 ++ speech_run 2))).2)%nat
  ∧ (length
       (segments
          (_capture_loop recorder true
             (reads (speech_run 3 ++ silence_run 3 40 ++ speech_run 2))).2)
     ≤ count_notification SpeechStart
         (_capture_loop recorder true
            (reads (speech_run 3 ++ silence_run 3 40 ++ speech_run 2))).2)%nat.
Proof.
  apply (ends_and_segments_follow_starts recorder true). reflexivity.
Defined.

Lemma speech_frames_of_cons c cs :
  speech_frames_of (c :: cs)
  = (if is_speech_frame c then [audio_np c] else []) ++ speech_frames_of cs.
Proof. unfold speech_frames_of. cbn. by destruct (is_speech_frame c). Qed.

Lemma delivered_cons_noread its : delivered (NoRead :: its) = delivered its.
Proof. reflexivity. Qed.

(** One iteration and the frames of the run: the frames collected so far
    and the frame read, if it is speech, either stay in the run or leave it
    together, and a segment handed out is made of the frames that leave. *)
Lemma capture_iteration_frames self callback l it :
  run_consistent l →
  let r := capture_iteration self callback l it in
  run_consistent r.1.2
  ∧ ∃ gone,
      speech_frames l ++ speech_frames_of (delivered [it])
      = gone ++ speech_frames r.1.2
      ∧ ∀ a, a ∈ segments r.2 → gone ≠ [] ∧ a = concat gone.
Proof.
  intros Hcons r. subst r. destruct it as [|c].
  { cbn [capture_iteration fst snd]. split; [done|]. exists [].
    split; [by rewrite app_nil_r|]. intros a Ha. by apply elem_of_nil in Ha. }
  change (delivered [Read c]) with [c].
  rewrite speech_frames_of_cons. unfold capture_iteration.
  destruct (is_speech_frame c).
  - assert (Hrun : run_consistent
             {| speech_frames := speech_frames l ++ [audio_np c];
                silence_frames := 0; is_speech := true;
                speech_start_time := Some (now c) |}).
    { split; [|done]. intros _. cbn. by destruct (speech_frames l). }
    destruct (is_speech l) eqn:Hl; cbn [negb fst snd speech_frames].
    + split.
      { split; [|done]. intros _. cbn. by destruct (speech_frames l). }
      exists []. split; [by rewrite app_nil_r|].
      intros a Ha. by apply elem_of_nil in Ha.
    + split; [exact Hrun|]. exists [].
      split; [by rewrite app_nil_r|]. intros a Ha.
      rewrite segments_notify_other in Ha by done.
      by apply elem_of_nil in Ha.
  - rewrite !app_nil_r. destruct (is_speech l) eqn:Hl.
    + destruct (Qle_bool _ _).
      * destruct (speech_start_time l) as [t0|]; cbn [fst snd speech_frames].
        -- split; [split; [done|by intros []]|].
           exists (speech_frames l). cbn [Locals_init speech_frames].
           split; [by rewrite app_nil_r|]. intros a Ha.
           destruct (Qle_bool _ _); [|by apply elem_of_nil in Ha].
           rewrite segments_app in Ha.
           rewrite (segments_notify_other _ SpeechEnd) in Ha by done.
           rewrite app_nil_r in Ha.
           destruct callback; [|by apply elem_of_nil in Ha].
           apply list_elem_of_singleton in Ha.
           split; [|done]. by apply Hcons.
        -- split.
           { unfold run_consistent in *. cbn. by rewrite Hl in *. }
           exists []. split; [done|]. intros a Ha. by apply elem_of_nil in Ha.
      * cbn [fst snd speech_frames]. split.
        { unfold run_consistent in *. cbn. by rewrite Hl in *. }
        exists []. split; [done|]. intros a Ha. by apply elem_of_nil in Ha.
    + cbn [fst snd]. split; [done|]. exists [].
      split; [done|]. intros a Ha. by apply elem_of_nil in Ha.
Qed.

Lemma capture_from_segments self callback l its (a : Frame) :
  run_consistent l →
  a ∈ segments (capture_from self callback l its).2 →
  ∃ before fs after,
    speech_frames l ++ speech_frames_of (delivered its)
    = before ++ fs ++ after
    ∧ fs ≠ [] ∧ a = concat fs.
Proof.
  revert self l. induction its as [|it its IH]; intros self l Hcons Hin.
  { by apply elem_of_nil in Hin. }
  cbn [capture_from] in Hin.
  pose proof (capture_iteration_frames self callback l it Hcons) as Hit.
  destruct (capture_iteration self callback l it) as [[self1 l1] out1].
  cbn [fst snd] in Hit. destruct Hit as (Hcons1 & gone & Hgone & Hseg).
  specialize (IH self1 l1 Hcons1).
  destruct (capture_from self1 callback l1 its) as [[self2 l2] out2].
  cbn [fst snd] in *.
  assert (Hsplit : speech_frames l ++ speech_frames_of (delivered (it :: its))
                   = gone ++ speech_frames l1
                     ++ speech_frames_of (delivered its)).
  { rewrite app_assoc, <- Hgone, <- app_assoc. f_equal.
    destruct it as [|c]; [done|].
    rewrite delivered_cons_read, speech_frames_of_cons.
    change (delivered [Read c]) with [c].
    rewrite speech_frames_of_cons. unfold speech_frames_of at 2.
    cbn [List.filter frames map]. by rewrite app_nil_r. }
  rewrite Hsplit. rewrite segments_app in Hin.
  apply elem_of_app in Hin as [Hin|Hin].
  - destruct (Hseg a Hin) as [Hne ->].
    by exists [], gone, (speech_frames l1 ++ speech_frames_of (delivered its)).
  - destruct (IH Hin) as (before & fs & after & Heq & Hne & Ha).
    exists (gone ++ before), fs, after. rewrite Heq.
    by rewrite <- app_assoc.
Qed.

(** X14: segments are made of speech frames only.  Whatever the clock and the
    settings, every segment handed to the callback is the concatenation of
    a non-empty stretch of consecutive entries of the sequence of frames the
    detector classified as speech, taken in the order of capture; a frame
    classified as silence is in no segment. *)
Theorem segments_are_speech_frames self callback its (a : Frame) :
  a ∈ segments (_capture_loop self callback its).2 →
  ∃ before fs after,
    speech_frames_of (delivered its) = before ++ fs ++ after
    ∧ fs ≠ [] ∧ a = concat fs.
Proof.
  intros Hin. unfold _capture_loop in Hin.
  pose proof (capture_from_segments self callback Locals_init its a) as H.
  destruct (capture_from self callback Locals_init its) as [[s2 l2] o2].
  cbn [snd] in *. apply H; [|done]. split; [done|]. by intros [].
Qed.

Lemma segments_are_speech_frames_witness :
  ∃ before fs after,
    speech_frames_of
      (delivered (reads (speech_run 20 ++ silence_run 20 40)))
    = before ++ fs ++ after
    ∧ fs ≠ [] ∧ concat (frames (speech_run 20)) = concat fs.
Proof.
  apply (segments_are_speech_frames recorder true
           (reads (speech_run 20 ++ silence_run 20 40))).
  apply (bool_decide_unpack _). by vm_compute.
Defined.

(** A session started from the idle state. *)
Lemma session_from_idle self callback its :
  is_recording self = false →
  ∃ self' out,
    session self true callback its
    = Some (self', out, concat (frames (delivered its)))
    ∧ is_recording self' = false
    ∧ recording_buffer self' = frames (delivered its)
    ∧ settings self' = settings self.
Proof.
  intros Hidle. unfold session, start_recording. rewrite Hidle.
  unfold _capture_loop.
  match goal with |- context [capture_from ?s callback Locals_init its] =>
    pose proof (capture_from_self s callback Locals_init its) as Hself;
    destruct (capture_from s callback Locals_init its) as [[self2 l2] out]
  end.
  cbn [fst] in Hself.
  assert (Hrec : is_recording self2 = true) by (by subst self2).
  assert (Hbuf : recording_buffer self2 = frames (delivered its))
    by (by subst self2).
  assert (Hcfg : settings self2 = settings self) by (by subst self2).
  destruct (stop_recording_active self2 Hrec) as (Haudio & Hkept & Hoff).
  assert (Hcfg' : settings (stop_recording self2).1 = settings self2).
  { unfold stop_recording. rewrite Hrec. cbn [negb].
    by destruct (recording_buffer self2). }
  destruct (stop_recording self2) as [self3 audio].
  cbn [fst snd] in *. exists self3, out.
  rewrite Haudio, Hbuf. repeat split; congruence.
Qed.

(** X15: sessions do not leak into each other: the buffer of a session stays in
    the object after [stop_recording], and the next [start_recording] clears
    it, so that the audio of the next session holds the frames of that
    session alone. *)
Theorem next_session_starts_empty self callback callback' its its' :
  is_recording self = false →
  ∃ self1 out1 self2 out2,
    session self true callback its
    = Some (self1, out1, concat (frames (delivered its)))
    ∧ recording_buffer self1 = frames (delivered its)
    ∧ session self1 true callback' its'
      = Some (self2, out2, concat (frames (delivered its')))
    ∧ recording_buffer self2 = frames (delivered its').
Proof.
  intros Hidle.
  destruct (session_from_idle self callback its Hidle)
    as (self1 & out1 & H1 & Hoff & Hbuf & _).
  destruct (session_from_idle self1 callback' its' Hoff)
    as (self2 & out2 & H2 & _ & Hbuf' & _).
  by exists self1, out1, self2, out2.
Qed.

Lemma next_session_starts_empty_witness :
  ∃ self1 out1 self2 out2,
    session recorder true true (reads (speech_run 3))
    = Some (self1, out1, concat (frames (delivered (reads (speech_run 3)))))
    ∧ recording_buffer self1 = frames (delivered (reads (speech_run 3)))
    ∧ session self1 true true (reads (silence_run 0 2))
      = Some (self2, out2,
              concat (frames (delivered (reads (silence_run 0 2)))))
    ∧ recording_buffer self2 = frames (delivered (reads (silence_run 0 2))).
Proof.
  apply (next_session_starts_empty recorder true true
           (reads (speech_run 3)) (reads (silence_run 0 2))).
  reflexivity.
Defined.

Lemma silence_duration_frames self (n : nat) :
  silence_duration self (Z.of_nat n)
  == inject_Z (Z.of_nat n) * frame_period (settings self).
Proof.
  unfold silence_duration, frame_period.
  rewrite inject_Z_mult. field.
Qed.

(** X16: the minimum speech duration is compared with the time since the first
    speech frame, taken when the silence limit is reached.  Captured in real
    time, that time is never shorter than the silence limit; so whenever the
    minimum is not above the limit, as with the defaults, no run is ever
    dropped as too short, however few speech frames it has. *)
Theorem min_speech_never_drops self callback speech silence (k : nat)
    c c_end :
  (0 <= chunk_duration_ms (settings self))%Z →
  min_speech_duration (settings self) <= max_silence_duration (settings self) →
  all_speech speech →
  speech !! 0%nat = Some c →
  all_silence silence →
  silence !! k = Some c_end →
  (∀ j : nat, (1 ≤ j ≤ k)%nat → silence_ends self (Z.of_nat j) = false) →
  silence_ends self (Z.of_nat k + 1) = true →
  real_time (frame_period (settings self)) (speech ++ silence) = true →
  (_capture_loop self callback (reads (speech ++ silence))).2
  = notify (on_speech_start self) SpeechStart
    ++ notify callback (Segment (concat (frames speech)))
    ++ notify (on_speech_end self) SpeechEnd.
Proof.
  intros Hchunk Hminmax Hsp Hc Hsil Hce Hbelow Hend Hrt.
  unfold _capture_loop.
  rewrite (capture_from_run self callback speech silence k c c_end) by done.
  assert (Hmin : Qle_bool (min_speech_duration (settings self))
                   (now c_end - now c) = true); [|by rewrite Hmin].
  apply Qle_bool_iff.
  assert (Hlen : (1 ≤ length speech)%nat).
  { apply lookup_lt_Some in Hc. lia. }
  pose proof (real_time_elapsed _ (speech ++ silence) 0 (length speech + k)
                c c_end Hrt) as Hel.
  rewrite lookup_app_l in Hel by lia. specialize (Hel Hc).
  rewrite lookup_app_r in Hel by lia.
  replace (0 + (length speech + k) - length speech)%nat with k in Hel by lia.
  specialize (Hel Hce).
  unfold silence_ends in Hend. apply Qle_bool_iff in Hend.
  replace (Z.of_nat k + 1)%Z with (Z.of_nat (S k)) in Hend by lia.
  rewrite silence_duration_frames in Hend.
  assert (Hp : 0 <= frame_period (settings self)).
  { unfold frame_period. apply Qle_shift_div_l; [reflexivity|].
    rewrite Qmult_0_l. change 0 with (inject_Z 0). by rewrite <- Zle_Qle. }
  assert (Hk : inject_Z (Z.of_nat (S k))
               <= inject_Z (Z.of_nat (length speech + k))).
  { rewrite <- Zle_Qle. lia. }
  assert (Hmul : inject_Z (Z.of_nat (S k)) * frame_period (settings self)
                 <= inject_Z (Z.of_nat (length speech + k))
                    * frame_period (settings self)).
  { by apply Qmult_le_compat_r. }
  lra.
Qed.

Lemma min_speech_never_drops_witness :
  (_capture_loop recorder true (reads (speech_run 1 ++ silence_run 1 34))).2
  = notify (on_speech_start recorder) SpeechStart
    ++ notify true (Segment (concat (frames (speech_run 1))))
    ++ notify (on_speech_end recorder) SpeechEnd.
Proof.
  refine (min_speech_never_drops recorder true (speech_run 1)
            (silence_run 1 34) 33
            (mkChunk (repeat 0%Z 480) true 0)
            (mkChunk (repeat 0%Z 480) false (51 # 50))
            _ _ _ _ _ _ _ _ _).
  - by vm_compute.
  - by vm_compute.
  - apply (bool_decide_unpack _). vm_compute. exact I.
  - reflexivity.
  - apply (bool_decide_unpack _). vm_compute. exact I.
  - vm_compute. reflexivity.
  - intros j Hj. rewrite silence_ends_default by reflexivity.
    apply Z.leb_gt. lia.
  - reflexivity.
  - reflexivity.
Defined.

End CaptureMore.

(** * The device list *)

Section DeviceList.

Import Devices.

Lemma devices_from_elem (i0 : nat) (infos : list DeviceInfo) (d : Device) :
  d ∈ devices_from i0 infos
  ↔ ∃ (j : nat) info,
      infos !! j = Some info ∧ (0 < maxInputChannels info)%Z
      ∧ d = {| index := i0 + j;
               device_name := name info;
               device_channels := maxInputChannels info;
               device_sample_rate := defaultSampleRate info |}.
Proof.
  revert i0. induction infos as [|info infos IH]; intros i0.
  - cbn. split; [by intros ?%elem_of_nil|by intros (j & ? & ? & _)].
  - cbn [devices_from]. destruct (0 <? maxInputChannels info)%Z eqn:Hpos.
    + rewrite elem_of_cons, IH. split.
      * intros [->|(j & info' & Hj & Hch & ->)].
        -- exists 0%nat, info. rewrite Nat.add_0_r.
           split; [done|]. split; [by apply Z.ltb_lt|done].
        -- exists (S j), info'. split; [done|]. split; [done|].
           f_equal. lia.
      * intros (j & info' & Hj & Hch & ->). destruct j as [|j].
        -- left. cbn in Hj. injection Hj as <-. by rewrite Nat.add_0_r.
        -- right. exists j, info'. split; [done|]. split; [done|].
           f_equal. lia.
    + rewrite IH. split.
      * intros (j & info' & Hj & Hch & ->). exists (S j), info'.
        split; [done|]. split; [done|]. f_equal. lia.
      * intros (j & info' & Hj & Hch & ->). destruct j as [|j].
        -- cbn in Hj. injection Hj as <-. apply Z.ltb_ge in Hpos. lia.
        -- exists j, info'. split; [done|]. split; [done|]. f_equal. lia.
Qed.

Lemma devices_from_sorted (i0 : nat) (infos : list DeviceInfo) :
  StronglySorted (λ d d', (index d < index d')%nat) (devices_from i0 infos).
Proof.
  revert i0. induction infos as [|info infos IH]; intros i0; [constructor|].
  cbn [devices_from]. destruct (0 <? maxInputChannels info)%Z; [|apply IH].
  constructor; [apply IH|]. apply Forall_forall. intros d Hd.
  apply devices_from_elem in Hd as (j & info' & _ & _ & ->). cbn. lia.
Qed.

(** X17: [get_audio_devices] lists exactly the devices with at least one input
    channel, each under the index the host knows it by (not its place in the
    list returned), with the name, channel count and sample rate of that
    device, and in ascending order of index, so without repetition. *)
Theorem get_audio_devices_lists_inputs (infos : list DeviceInfo) :
  (∀ d, d ∈ get_audio_devices infos
        ↔ ∃ (i : nat) info,
            infos !! i = Some info ∧ (0 < maxInputChannels info)%Z
            ∧ d = {| index := i;
                     device_name := name info;
                     device_channels := maxInputChannels info;
                     device_sample_rate := defaultSampleRate info |})
  ∧ StronglySorted (λ d d', (index d < index d')%nat)
      (get_audio_devices infos).
Proof.
  split; [|apply devices_from_sorted].
  intros d. unfold get_audio_devices. apply devices_from_elem.
Qed.

Lemma get_audio_devices_lists_inputs_witness :
  {| index := 1; device_name := "mic"; device_channels := 2;
     device_sample_rate := 44100 |}
  ∈ get_audio_devices
      [ {| name := "speakers"; maxInputChannels := 0;
           defaultSampleRate := 48000 |};
        {| name := "mic"; maxInputChannels := 2;
           defaultSampleRate := 44100 |} ].
Proof.
  apply (get_audio_devices_lists_inputs
           [ {| name := "speakers"; maxInputChannels := 0;
                defaultSampleRate := 48000 |};
             {| name := "mic"; maxInputChannels := 2;
                defaultSampleRate := 44100 |} ]).
  exists 1%nat, {| name := "mic"; maxInputChannels := 2;
                   defaultSampleRate := 44100 |}.
  split; [reflexivity|]. split; [cbn; lia|reflexivity].
Defined.

End DeviceList.

(** * Push-to-talk capture *)

Section PushToTalkCapture.

Import PushToTalk.

Implicit Types (self : PushToTalkCapture).

(** X18: a failed start blocks the next one.  When the device cannot be opened,
    [start_push_to_talk] raises with the flag already set; a second call,
    even with the device available, then returns at once and records
    nothing.  [stop_push_to_talk] clears the flag and returns an empty
    array, after which a start records again. *)
Theorem failed_start_blocks_retry self :
  ptt_active self = false →
  is_recording (capture self) = false →
  sample_rate (settings (capture self)) ≠ 0%Z →
  let failed := start_push_to_talk self false in
  let reset := stop_push_to_talk failed.1 in
  failed.2 = Raised
  ∧ start_push_to_talk failed.1 true = (failed.1, Returned)
  ∧ is_recording (capture failed.1) = false
  ∧ reset.2 = Some []
  ∧ ptt_active reset.1 = false
  ∧ is_recording (capture (start_push_to_talk reset.1 true).1) = true.
Proof.
  intros Hact Hidle Hrate failed reset. subst failed reset.
  assert (Hfail : start_push_to_talk self false
                  = ({| capture := capture self; ptt_buffer := [];
                        ptt_active := true |}, Raised)).
  { unfold start_push_to_talk, start_recording. by rewrite Hact, Hidle. }
  rewrite Hfail. cbn [fst snd].
  assert (Hreset : stop_push_to_talk
                     {| capture := capture self; ptt_buffer := [];
                        ptt_active := true |}
                   = ({| capture := capture self; ptt_buffer := [];
                         ptt_active := false |}, Some [])).
  { unfold stop_push_to_talk, stop_recording.
    cbn [ptt_active negb capture ptt_buffer]. rewrite Hidle. cbn [negb].
    by rewrite (proj2 (Z.eqb_neq _ _) Hrate). }
  rewrite Hreset. cbn [fst snd capture ptt_active].
  split; [done|]. split; [done|]. split; [done|].
  split; [done|]. split; [done|].
  unfold start_push_to_talk, start_recording.
  cbn [ptt_active capture]. by rewrite Hidle.
Qed.

Lemma failed_start_blocks_retry_witness :
  let self := PushToTalkCapture_init default_settings in
  let failed := start_push_to_talk self false in
  let reset := stop_push_to_talk failed.1 in
  failed.2 = Raised
  ∧ start_push_to_talk failed.1 true = (failed.1, Returned)
  ∧ is_recording (capture failed.1) = false
  ∧ reset.2 = Some []
  ∧ ptt_active reset.1 = false
  ∧ is_recording (capture (start_push_to_talk reset.1 true).1) = true.
Proof.
  apply (failed_start_blocks_retry (PushToTalkCapture_init default_settings));
    [reflexivity|reflexivity|discriminate].
Defined.

(** X19: a push-to-talk gesture returns everything that was captured between
    start and stop, speech or not, as one array, and no segment is handed
    out on the way; afterwards the flag is clear and the session idle. *)
Theorem gesture_returns_all_frames self its :
  ptt_active self = false →
  is_recording (capture self) = false →
  sample_rate (settings (capture self)) ≠ 0%Z →
  ∃ self' out,
    gesture self its = (self', out, Some (concat (frames (delivered its))))
    ∧ segments out = []
    ∧ ptt_active self' = false
    ∧ is_recording (capture self') = false.
Proof.
  intros Hact Hidle Hrate. unfold gesture, start_push_to_talk.
  rewrite Hact. unfold start_recording. rewrite Hidle.
  cbn [capture ptt_buffer ptt_active].
  match goal with |- context [_capture_loop ?s false its] =>
    pose proof (capture_from_no_callback s Locals_init its) as Hseg;
    pose proof (capture_from_self s false Locals_init its) as Hself;
    set (started := s) in *
  end.
  unfold _capture_loop.
  destruct (capture_from started false Locals_init its)
    as [[capture2 l2] out].
  cbn [fst snd] in *.
  assert (Hrec : is_recording capture2 = true) by (by subst capture2).
  assert (Hbuf : recording_buffer capture2 = frames (delivered its))
    by (by subst capture2).
  assert (Hcfg : settings capture2 = settings (capture self))
    by (by subst capture2).
  unfold stop_push_to_talk. cbn [ptt_active negb capture ptt_buffer].
  destruct (stop_recording_active capture2 Hrec) as (Haudio & _ & Hoff).
  destruct (stop_recording capture2) as [capture3 audio].
  cbn [fst snd] in *.
  rewrite Hcfg, (proj2 (Z.eqb_neq _ _) Hrate).
  eexists _, out. split; [by rewrite Haudio, Hbuf|]. by repeat split.
Qed.

Lemma gesture_returns_all_frames_witness :
  ∃ self' out,
    gesture (PushToTalkCapture_init default_settings)
      (reads (speech_run 2 ++ silence_run 2 3))
    = (self', out,
       Some (concat (frames (delivered
                               (reads (speech_run 2 ++ silence_run 2 3))))))
    ∧ segments out = []
    ∧ ptt_active self' = false
    ∧ is_recording (capture self') = false.
Proof.
  apply (gesture_returns_all_frames
           (PushToTalkCapture_init default_settings)
           (reads (speech_run 2 ++ silence_run 2 3)));
    [reflexivity|reflexivity|discriminate].
Defined.

End PushToTalkCapture.
